(** * Protractor: host-side driver of the Protractor angle/proximity sensor

    A shallow embedding of [Protractor.cpp] and the properties of its
    scan session, accessor surface and configuration commands.

    The driver object and the two transports it talks to are threaded
    through a small state-and-fault monad.  Integers are [Z] with the
    wrap-around of their C++ type written out; the scan buffer is a list
    of bytes indexed with stdpp's lookup and insert, and an index outside
    the array is a fault (the C++ behaviour there is undefined). *)

From Stdlib Require Import ZArith Lia Bool.
From stdpp Require Import base list.

Local Open Scope Z_scope.

(** ** Machine integers *)

Module Int.

(** [uint8_t], [byte] *)
Definition u8 (z : Z) : Z := z mod 256.

(** [unsigned long] (32 bits on the targets of the library) *)
Definition u32 (z : Z) : Z := z mod 2 ^ 32.

(** Two's complement reading of the low [w] bits. *)
Definition signed (w : Z) (z : Z) : Z :=
  let r := z mod 2 ^ w in
  if r <? 2 ^ (w - 1) then r else r - 2 ^ w.

(** [int16_t] *)
Definition s16 (z : Z) : Z := signed 16 z.

(** [long] *)
Definition s32 (z : Z) : Z := signed 32 z.

Definition is_u8 (z : Z) : Prop := 0 <= z < 256.
Definition is_s16 (z : Z) : Prop := - 32768 <= z < 32768.

End Int.

Import Int.

(** ** Constants of the missing header [Protractor.h] *)

(** Modelled from the spec: [MAXOBJECTS], defined in [Protractor.h], which
    is not part of the sources at hand; the protocol constants of the spec
    give 8. *)
Definition MAXOBJECTS : Z := 8.

(** Modelled from the spec: [MINDUR], defined in [Protractor.h]; the
    minimum scan period of the sensor, 15 ms. *)
Definition MINDUR : Z := 15.

(** Modelled from the spec: the declared size of [_buffer], a member
    declared in [Protractor.h]; the spec fixes it at [1 + 4·MAXOBJECTS]. *)
Definition BUFFER_SIZE : Z := 1 + 4 * MAXOBJECTS.

(** The character ['\n'] that closes every command frame. *)
Definition NEWLINE : Z := 10.

(** ** Arduino's [map] *)

(** [long map(long x, long in_min, long in_max, long out_min, long out_max)]
    of the Arduino core:
    [(x - in_min) * (out_max - out_min) / (in_max - in_min) + out_min],
    in [long] arithmetic; C++ division truncates towards zero. *)
Module Arduino.

Definition map (x in_min in_max out_min out_max : Z) : Z :=
  s32 (s32 (s32 (s32 (x - in_min) * s32 (out_max - out_min))
              ÷ s32 (in_max - in_min))
       + out_min).

End Arduino.

(** The decoding both angle accessors apply to the raw angle byte:
    [int16_t angle = map(raw, 0, 255, 0, 180)]. *)
Definition decode (raw : Z) : Z := s16 (Arduino.map raw 0 255 0 180).

(** The decoding as the spec words it: [round(raw · 180 / 255)],
    saturating at 180.  [round_div a b] is the integer nearest to [a / b]
    for [b > 0] (halves upwards; none occurs for a byte, as 12·raw/17 is
    never a half-integer). *)
Definition round_div (a b : Z) : Z := (2 * a + b) / (2 * b).

Definition spec_decode (raw : Z) : Z := Z.min 180 (round_div (raw * 180) 255).

(** ** The driver object and its world *)

(** The value of [_comm].  [begin] sets it to [I2CCOMM] or [SERIALCOMM];
    [UNSET] stands for every other value, which is what the member holds
    before [begin] (the constructor leaves it alone). *)
Inductive comm := I2CCOMM | SERIALCOMM | UNSET.

(** What the driver asks of its two borrowed transports, [Stream] and
    [TwoWire], in the order of the calls. *)
Inductive event :=
| SerialWrite (bytes : list Z)
| WireBegin
| WireBeginTransmission (address : Z)
| WireWrite (bytes : list Z)
| WireEndTransmission
| WireRequestFrom (address : Z) (quantity : Z).

(** Accesses to [_buffer], by index. *)
Inductive access := Load (index : Z) | Store (index : Z).

(** The members of [Protractor] together with the part of the world its
    methods act on: the microsecond counter behind [micros()], the calls
    made on the transports, the bytes obtained from them, and the
    accesses made to [_buffer]. *)
Record machine := Machine {
  _comm : comm;
  _address : Z;
  _numdata : Z;
  _buffer : list Z;
  clock : Z;
  sent : list event;
  received : list Z;
  accesses : list access
}.

(** One turn of the receive loop as the world presents it: what the
    transport's [available()] and [read()] return, and the microseconds
    that pass before the [micros()] of line 78 (after a byte was stored)
    and before the [micros()] of line 80. *)
Record poll := Poll {
  available_now : Z;
  next_byte : Z;
  elapsed_store : Z;
  elapsed_turn : Z
}.

Inductive fault :=
| OutOfBounds (index : Z)   (* [_buffer] indexed outside its declared size *)
| Starved.                  (* the script of polls ended before the loop did *)

Inductive outcome (A : Type) :=
| Done (a : A) (m : machine)
| Fault (f : fault).

Arguments Done {A} a m.
Arguments Fault {A} f.

Definition M (A : Type) : Type := machine -> outcome A.

#[global] Instance driver_ret : MRet M := fun A (a : A) m => Done a m.

#[global] Instance driver_bind : MBind M := fun A B (k : A -> M B) (c : M A) m =>
  match c m with
  | Done a m' => k a m'
  | Fault f => Fault f
  end.

Definition modify (f : machine -> machine) : M unit := fun m => Done tt (f m).

Definition set_comm (c : comm) (m : machine) : machine :=
  Machine c (_address m) (_numdata m) (_buffer m) (clock m) (sent m)
          (received m) (accesses m).
Definition set_address (a : Z) (m : machine) : machine :=
  Machine (_comm m) a (_numdata m) (_buffer m) (clock m) (sent m)
          (received m) (accesses m).
Definition set_numdata (n : Z) (m : machine) : machine :=
  Machine (_comm m) (_address m) n (_buffer m) (clock m) (sent m)
          (received m) (accesses m).
Definition set_buffer (b : list Z) (m : machine) : machine :=
  Machine (_comm m) (_address m) (_numdata m) b (clock m) (sent m)
          (received m) (accesses m).
Definition set_clock (t : Z) (m : machine) : machine :=
  Machine (_comm m) (_address m) (_numdata m) (_buffer m) t (sent m)
          (received m) (accesses m).
Definition log_event (e : event) (m : machine) : machine :=
  Machine (_comm m) (_address m) (_numdata m) (_buffer m) (clock m)
          (sent m ++ [e]) (received m) (accesses m).
Definition log_received (b : Z) (m : machine) : machine :=
  Machine (_comm m) (_address m) (_numdata m) (_buffer m) (clock m) (sent m)
          (received m ++ [b]) (accesses m).
Definition log_access (a : access) (m : machine) : machine :=
  Machine (_comm m) (_address m) (_numdata m) (_buffer m) (clock m) (sent m)
          (received m) (accesses m ++ [a]).

(** [index] designates an element of the array as declared. *)
Definition in_bounds (index : Z) : bool :=
  (0 <=? index) && (index <? BUFFER_SIZE).

(** Reading [_buffer[index]]. *)
Definition load (index : Z) : M Z := fun m =>
  if in_bounds index then
    match _buffer m !! Z.to_nat index with
    | Some b => Done b (log_access (Load index) m)
    | None => Fault (OutOfBounds index)
    end
  else Fault (OutOfBounds index).

(** Assigning [_buffer[index] = value]; the element is a [uint8_t]. *)
Definition store (index value : Z) : M unit := fun m =>
  if in_bounds index then
    if (Z.to_nat index <? length (_buffer m))%nat then
      Done tt (log_access (Store index)
                 (set_buffer (<[Z.to_nat index := u8 value]> (_buffer m)) m))
    else Fault (OutOfBounds index)
  else Fault (OutOfBounds index).

(** [micros()], read after [elapsed] more microseconds have passed; the
    counter is an [unsigned long] and wraps. *)
Definition micros (elapsed : Z) : M Z := fun m =>
  let t := u32 (clock m + elapsed) in Done t (set_clock t m).

(** [maxWait]: the longest wait, in microseconds, for the next byte. *)
Definition maxWait : Z := 20000.

Section Driver.

(** Command tags and LED modes, [#define]d in [Protractor.h] and opaque
    to the spec.  Each initialises a [uint8_t] array element inside
    braces, where C++ admits no narrowing: they are byte constants. *)
Variables REQUESTDATA SCANTIME I2CADDR BAUDRATE LEDUSAGE : Z.
Variables SHOWOBJ SHOWPATH LEDOFF : Z.

(** *** Initialisation *)

(** [void begin(Stream &serial)] *)
Definition begin_serial : M unit := modify (set_comm SERIALCOMM).

(** [void begin(TwoWire &wire, int16_t address)] *)
Definition begin_wire (address : Z) : M unit :=
  modify (set_address address);;
  modify (log_event WireBegin);;
  modify (set_comm I2CCOMM).

(** *** Private functions *)

(** [uint8_t _available()]: the transport's count, narrowed to a byte. *)
Definition _available (p : poll) : M Z := fun m =>
  match _comm m with
  | I2CCOMM => Done (u8 (available_now p)) m
  | SERIALCOMM => Done (u8 (available_now p)) m
  | UNSET => Done 0 m
  end.

(** [uint8_t _read()] *)
Definition _read (p : poll) : M Z := fun m =>
  match _comm m with
  | I2CCOMM => Done (u8 (next_byte p)) (log_received (u8 (next_byte p)) m)
  | SERIALCOMM => Done (u8 (next_byte p)) (log_received (u8 (next_byte p)) m)
  | UNSET => Done 0 m
  end.

(** [void _write(uint8_t arrayBuffer[], uint8_t arrayLength)] *)
Definition _write (arrayBuffer : list Z) (arrayLength : Z) : M unit := fun m =>
  let bytes := take (Z.to_nat arrayLength) arrayBuffer in
  match _comm m with
  | I2CCOMM =>
      Done tt (log_event WireEndTransmission
                 (log_event (WireWrite bytes)
                    (log_event (WireBeginTransmission (_address m)) m)))
  | SERIALCOMM => Done tt (log_event (SerialWrite bytes) m)
  | UNSET => Done tt m
  end.

(** [void _requestData(uint8_t numBytes)] *)
Definition _requestData (numBytes : Z) : M unit := fun m =>
  match _comm m with
  | I2CCOMM => Done tt (log_event (WireRequestFrom (_address m) numBytes) m)
  | SERIALCOMM => _write [REQUESTDATA; numBytes; NEWLINE] 3 m
  | UNSET => Done tt m
  end.

(** *** Basic functions *)

(** The [while] loop of [read(int16_t)], lines 74 to 81, one poll of
    the script per turn.  [i] is an [int] below [numBytes <= 255]. *)
Fixpoint gather (script : list poll) (numBytes i startTime duration : Z)
  : M Z :=
  if (i <? numBytes) && (duration <? maxWait) then
    match script with
    | [] => fun _ => Fault Starved
    | p :: script' =>
        a ← _available p;
        '(i', startTime') ←
          (if a =? 0 then mret (i, startTime)
           else b ← _read p;
                store i b;;
                t ← micros (elapsed_store p);
                mret (i + 1, t));
        now ← micros (elapsed_turn p);
        gather script' numBytes i' startTime' (u32 (now - startTime'))
    end
  else mret i.

(** [uint8_t numBytes = 1 + obs*4]: computed in [int] and narrowed to
    a byte, so only the residue modulo 256 of the sum remains. *)
Definition numBytes_of (obs : Z) : Z := u8 (1 + obs * 4).

(** [bool read(int16_t obs)] *)
Definition read (obs : Z) (script : list poll) : M bool :=
  let obs := if obs >? MAXOBJECTS then MAXOBJECTS else obs in
  modify (set_numdata obs);;
  let numBytes := numBytes_of obs in
  _requestData numBytes;;
  startTime ← micros 0;
  i ← gather script numBytes 0 startTime 0;
  mret (if i =? 0 then false else true).

(** [bool read()] *)
Definition read_all (script : list poll) : M bool := read MAXOBJECTS script.

(** [int16_t objectCount()] *)
Definition objectCount : M Z :=
  b ← load 0;
  mret (s16 (Z.shiftr b 4)).

(** [int16_t pathCount()]: [_buffer[0] &= 0b00001111] is a compound
    assignment; it stores the masked byte and yields it. *)
Definition pathCount : M Z :=
  b ← load 0;
  store 0 (Z.land b 15);;
  mret (s16 (u8 (Z.land b 15))).

(** [int16_t objectAngle(int16_t ob)].  Past the guard [ob] lies in
    [0, 14], so [1+4*ob] does not leave [int]. *)
Definition objectAngle (ob : Z) : M Z :=
  n ← objectCount;
  if (ob >=? n) || (ob <? 0) then mret (-1)
  else raw ← load (1 + 4 * ob);
       mret (decode raw).

(** [int16_t objectVisibility(int16_t ob)] *)
Definition objectVisibility (ob : Z) : M Z :=
  n ← objectCount;
  if (ob >=? n) || (ob <? 0) then mret (-1)
  else vis ← load (2 + 4 * ob);
       mret (s16 vis).

(** [int16_t pathAngle(int16_t pa)] *)
Definition pathAngle (pa : Z) : M Z :=
  n ← pathCount;
  if (pa >=? n) || (pa <? 0) then mret (-1)
  else raw ← load (3 + 4 * pa);
       mret (decode raw).

(** [int16_t pathVisibility(int16_t pa)] *)
Definition pathVisibility (pa : Z) : M Z :=
  n ← pathCount;
  if (pa >=? n) || (pa <? 0) then mret (-1)
  else vis ← load (4 + 4 * pa);
       mret (s16 vis).

(** *** Settings *)

(** [void scanTime(int16_t milliSeconds)] *)
Definition scanTime (milliSeconds : Z) : M unit :=
  if (milliSeconds >=? 1) && (milliSeconds <=? MINDUR - 1) then
    _write [SCANTIME; MINDUR; NEWLINE] 3
  else if (milliSeconds >=? 0) && (milliSeconds <=? 32767) then
    _write [SCANTIME; u8 (Z.land milliSeconds 255);
            u8 (Z.shiftr milliSeconds 8); NEWLINE] 4
  else mret tt.

(** [void setNewI2Caddress(int16_t newAddress)] *)
Definition setNewI2Caddress (newAddress : Z) : M unit :=
  if (newAddress >=? 2) && (newAddress <=? 127) then
    _write [I2CADDR; u8 newAddress; NEWLINE] 3
  else mret tt.

(** [void setNewSerialBaudRate(int32_t newBaudRate)] *)
Definition setNewSerialBaudRate (newBaudRate : Z) : M unit :=
  if (newBaudRate >=? 1200) && (newBaudRate <=? 250000) then
    _write [BAUDRATE; u8 (Z.land newBaudRate 255);
            u8 (Z.shiftr newBaudRate 8); u8 (Z.shiftr newBaudRate 16);
            NEWLINE] 5
  else mret tt.

(** [void LEDshowObject()], [void LEDshowPath()], [void LEDoff()] *)
Definition LEDshowObject : M unit := _write [LEDUSAGE; SHOWOBJ; NEWLINE] 3.
Definition LEDshowPath : M unit := _write [LEDUSAGE; SHOWPATH; NEWLINE] 3.
Definition LEDoff : M unit := _write [LEDUSAGE; LEDOFF; NEWLINE] 3.

End Driver.

(** ** Vocabulary of the properties *)

(** The buffer has its declared size and holds bytes. *)
Definition buffer_ok (m : machine) : Prop :=
  length (_buffer m) = Z.to_nat BUFFER_SIZE /\ Forall is_u8 (_buffer m).

(** The handle went through one of the two [begin]s. *)
Definition initialised (m : machine) : Prop :=
  _comm m = I2CCOMM \/ _comm m = SERIALCOMM.

(** The byte arrays handed to the transports' [write]. *)
Definition payload (e : event) : list (list Z) :=
  match e with
  | SerialWrite bytes => [bytes]
  | WireWrite bytes => [bytes]
  | _ => []
  end.

Definition payloads (evs : list event) : list (list Z) :=
  concat (List.map payload evs).

(** The events through which [_write] puts [frame] on the transport the
    handle is bound to. *)
Definition on_wire (m : machine) (frame : list Z) : list event :=
  match _comm m with
  | I2CCOMM => [WireBeginTransmission (_address m); WireWrite frame;
                WireEndTransmission]
  | SERIALCOMM => [SerialWrite frame]
  | UNSET => []
  end.

(** Indices the accesses of a trace read from, and write to. *)
Definition loads (tr : list access) : list Z :=
  concat (List.map (fun a => match a with Load k => [k] | Store _ => [] end) tr).

Definition stores (tr : list access) : list Z :=
  concat (List.map (fun a => match a with Store k => [k] | Load _ => [] end) tr).

(** An accessor call [c] from [m] answers the sentinel -1 and reads no
    byte of a record: the only index it loads from is that of the header. *)
Definition sentinel_reading_header_only (c : M Z) (m : machine) : Prop :=
  exists m' tr,
    c m = Done (-1) m' /\ accesses m' = accesses m ++ tr /\
    Forall (fun k => k = 0) (loads tr).

(** Outcome of an angle accessor [angle] at index [i] against the count
    [count] its guard consults, from [m]: the count is a nibble; below
    the count, and inside the records the buffer has room for, the angle
    is a degree of the field of view; from the count on, it is -1. *)
Definition angle_contract (count : M Z) (angle : Z -> M Z) (m : machine)
           (i : Z) : Prop :=
  exists n m1,
    count m = Done n m1 /\ 0 <= n <= 15 /\
    (0 <= i < n -> i < MAXOBJECTS ->
     exists a m', angle i m = Done a m' /\ 0 <= a <= 180) /\
    (i >= n -> exists m', angle i m = Done (-1) m').

(** Documented ranges of the configuration arguments. *)
Definition scan_time_in_range (v : Z) : Prop := 0 <= v <= 32767.
Definition address_in_range (v : Z) : Prop := 2 <= v <= 127.
Definition baud_in_range (v : Z) : Prop := 1200 <= v <= 250000.

(** What one configuration call [c] does from [m]: it returns, adds [out]
    to the calls made on the transport, and [out] carries exactly one
    frame, closed by 0x0A, when the argument is in range and is empty
    otherwise. *)
Definition config_emission (in_range : Prop) (c : M unit) (m : machine) : Prop :=
  exists m' out,
    c m = Done tt m' /\ sent m' = sent m ++ out /\
    (in_range <-> payloads out <> []) /\
    (~ in_range -> out = [] /\ m' = m) /\
    (forall frame, In frame (payloads out) ->
                   exists body, frame = body ++ [0x0A]).

(** A little-endian byte pair read back as a 16-bit value. *)
Definition le16 (lo hi : Z) : Z := Z.lor lo (Z.shiftl hi 8).



(** ** Sample states *)

Definition blank : list Z := replicate 32 0.

Definition fresh (c : comm) (header : Z) : machine :=
  Machine c 0x45 0 (header :: blank) 0 [] [] [].

(** Scenario "two objects, one path" of the spec. *)
Definition two_objects_one_path : machine :=
  Machine SERIALCOMM 0x45 8
          ([0x21; 0x00; 0xFF; 0x80; 0x40; 0xFF; 0xC0; 0x40; 0x80]
             ++ replicate 24 0)
          0 [] [] [].

(** A transport that has a byte ready at every turn, each turn lasting
    100 microseconds. *)
Definition flood (n : nat) : list poll := replicate n (Poll 1 0xAA 50 100).

(** A transport that stays silent for 0.7 s. *)
Definition silence : list poll := [Poll 0 0 0 700000].

(** Scenario "partial then timeout" of the spec: the header 0x10 arrives
    and nothing after it. *)
Definition partial_then_silence : list poll := Poll 1 0x10 50 100 :: silence.

(** ** Further members and vocabulary *)

(** [int16_t objectAngle()], [int16_t objectVisibility()],
    [int16_t pathAngle()] and [int16_t pathVisibility()]: the overloads
    without an argument ask for index 0. *)
Definition objectAngle0 : M Z := objectAngle 0.
Definition objectVisibility0 : M Z := objectVisibility 0.
Definition pathAngle0 : M Z := pathAngle 0.
Definition pathVisibility0 : M Z := pathVisibility 0.

(** The calls through which [_requestData] asks the transport the handle
    is bound to for [n] bytes. *)
Definition request_events (tag : Z) (m : machine) (n : Z) : list event :=
  match _comm m with
  | I2CCOMM => [WireRequestFrom (_address m) n]
  | SERIALCOMM => [SerialWrite [tag; n; NEWLINE]]
  | UNSET => []
  end.

(** A little-endian byte triple read back as a 24-bit value. *)
Definition le24 (b0 b1 b2 : Z) : Z := b0 + 256 * b1 + 65536 * b2.

(** A turn at which the transport shows no byte. *)
Definition quiet (p : poll) : Prop := u8 (available_now p) = 0.

(** A turn at which the transport shows a byte and which ends before
    the inter-byte deadline. *)
Definition prompt (p : poll) : Prop :=
  u8 (available_now p) <> 0 /\ 0 <= elapsed_turn p < maxWait.

(** The bytes a script hands over at its first [n] turns. *)
Definition offered (n : Z) (script : list poll) : list Z :=
  (fun p => u8 (next_byte p)) <$> take (Z.to_nat n) script.

(** The header byte of the scan buffer, [_buffer[0]]. *)
Definition header (m : machine) : option Z := _buffer m !! 0%nat.

(** The state [pathCount()] leaves behind on a buffer of header [h]. *)
Definition masked (h : Z) (m : machine) : machine :=
  log_access (Store 0)
    (set_buffer (<[0%nat := h mod 16]> (_buffer m)) (log_access (Load 0) m)).

(** The contract of an angle accessor as the spec states it, with no
    word on where the record lies: below the count the angle is a degree
    of the field of view; from the count on, it is -1. *)
Definition angle_contract_as_stated (count : M Z) (angle : Z -> M Z)
           (m : machine) (i : Z) : Prop :=
  exists n m1,
    count m = Done n m1 /\
    (0 <= i < n -> exists a m', angle i m = Done a m' /\ 0 <= a <= 180) /\
    (i >= n -> exists m', angle i m = Done (-1) m').

(** The first byte of a scan, read off the behaviour of the transport
    alone: the byte handed over at the first turn that [shows] one,
    provided the turns before it, all without a byte, took less than
    [maxWait] microseconds together with the time [waited] already; no
    byte when the wait reaches [maxWait] first. *)
Fixpoint first_byte_by (shows : poll -> bool) (script : list poll)
         (waited : Z) : option Z :=
  match script with
  | [] => None
  | p :: rest =>
      if shows p then Some (u8 (next_byte p))
      else if waited + elapsed_turn p <? maxWait
           then first_byte_by shows rest (waited + elapsed_turn p)
           else None
  end.


(** As the driver sees it: through [_available()], which hands on the
    count of the transport narrowed to a [uint8_t]. *)
Definition first_byte_in_time : list poll -> Z -> option Z :=
  first_byte_by (fun p => negb (u8 (available_now p) =? 0)).



(** A byte one microsecond before the deadline, and one at the deadline. *)
Definition just_in_time : list poll :=
  [Poll 0 0 0 19999; Poll 1 0x42 7 0; Poll 0 0 0 20000].

Definition just_too_late : list poll :=
  [Poll 0 0 0 20000; Poll 1 0x42 7 0; Poll 0 0 0 20000].

(** A transport with a byte ready at every turn, each turn lasting 19 ms:
    just inside the inter-byte deadline. *)
Definition slow_flood (n : nat) : list poll := replicate n (Poll 1 0xAA 50 19000).

(** * Properties *)

(** Unfolds the monad down to the matches on outcomes. *)
Ltac run := unfold mbind, driver_bind, mret, driver_ret, modify; simpl.

(** ** Machine integers *)

Section IntFacts.

Lemma u8_range z : is_u8 (u8 z).
Proof. unfold is_u8, u8. apply Z.mod_pos_bound. lia. Qed.

Lemma u8_small z : is_u8 z -> u8 z = z.
Proof. unfold is_u8, u8. intros ?. apply Z.mod_small. lia. Qed.



Lemma signed_small w z :
  0 < w -> - 2 ^ (w - 1) <= z < 2 ^ (w - 1) -> signed w z = z.
Proof.
  intros Hw Hz. unfold signed.
  assert (Hpow : 2 ^ w = 2 * 2 ^ (w - 1)).
  { replace w with (Z.succ (w - 1)) at 1 by lia. apply Z.pow_succ_r. lia. }
  destruct (Z_lt_le_dec z 0) as [Hneg | Hpos].
  - replace (z mod 2 ^ w) with (z + 2 ^ w).
    + destruct (Z.ltb_spec (z + 2 ^ w) (2 ^ (w - 1))); lia.
    + apply Z.mod_unique with (q := -1); lia.
  - rewrite Z.mod_small by lia.
    destruct (Z.ltb_spec z (2 ^ (w - 1))); lia.
Qed.

Lemma s16_small z : is_s16 z -> s16 z = z.
Proof. intros Hz. apply signed_small; [lia | exact Hz]. Qed.

Lemma s32_small z : - 2 ^ 31 <= z < 2 ^ 31 -> s32 z = z.
Proof. intros Hz. apply signed_small; [lia | exact Hz]. Qed.

End IntFacts.

(** ** Angle decoding *)

Section Decoding.

(** On a byte no step of [map] leaves [long], and the division is the
    floor of a non-negative quotient. *)
Lemma decode_byte raw : is_u8 raw -> decode raw = raw * 180 / 255.
Proof.
  unfold is_u8. intros Hraw. unfold decode, Arduino.map.
  change (s32 (180 - 0)) with 180. change (s32 (255 - 0)) with 255.
  rewrite Z.sub_0_r.
  rewrite (s32_small raw) by lia.
  rewrite (s32_small (raw * 180)) by lia.
  rewrite Z.quot_div_nonneg by lia.
  assert (Hq : 0 <= raw * 180 / 255 <= 180).
  { split; [apply Z.div_pos; lia |].
    apply Z.div_le_upper_bound; lia. }
  rewrite (s32_small (raw * 180 / 255)) by lia.
  rewrite Z.add_0_r.
  rewrite (s32_small (raw * 180 / 255)) by lia.
  apply s16_small. unfold is_s16. lia.
Qed.

Lemma decode_range raw : is_u8 raw -> 0 <= decode raw <= 180.
Proof.
  intros Hraw. rewrite decode_byte by exact Hraw. unfold is_u8 in Hraw.
  split; [apply Z.div_pos; lia | apply Z.div_le_upper_bound; lia].
Qed.

(** C2, as amended: on every raw byte the decoding of [objectAngle] and
    [pathAngle] is [raw * 180 / 255] with the fraction dropped; it lies
    in [0, 180], so nothing is left to saturate, and it is the rounded
    value of the spec or the degree below it. *)
Theorem decode_truncates raw :
  is_u8 raw ->
  decode raw = raw * 180 / 255 /\
  0 <= decode raw <= 180 /\
  spec_decode raw - 1 <= decode raw <= spec_decode raw.
Proof.
  intros Hraw. split; [apply decode_byte; exact Hraw |].
  split; [apply decode_range; exact Hraw |].
  rewrite decode_byte by exact Hraw.
  unfold spec_decode, round_div, is_u8 in *.
  rewrite Z.min_r.
  - Z.div_mod_to_equations. lia.
  - Z.div_mod_to_equations. lia.
Qed.

Lemma decode_truncates_witness :
  is_u8 1 /\ decode 1 = 1 * 180 / 255.
Proof.
  split; [unfold is_u8; lia |].
  apply (decode_truncates 1). unfold is_u8. lia.
Defined.

(** C2, as stated, fails: raw byte 1 stands for 0.7 degrees, which rounds
    to 1, and the driver reports 0. *)
Lemma decode_is_not_rounding :
  is_u8 1 /\ decode 1 = 0 /\ spec_decode 1 = 1 /\ decode 1 <> spec_decode 1.
Proof. repeat split; [unfold is_u8; lia | discriminate]. Qed.

(** C7: the decoding is monotone non-decreasing in the raw byte. *)
Theorem decode_monotone raw1 raw2 :
  is_u8 raw1 -> is_u8 raw2 -> raw1 <= raw2 -> decode raw1 <= decode raw2.
Proof.
  intros H1 H2 Hle. rewrite !decode_byte by assumption.
  unfold is_u8 in *. apply Z.div_le_mono; lia.
Qed.

Lemma decode_monotone_witness :
  is_u8 3 /\ is_u8 200 /\ 3 <= 200 /\ decode 3 <= decode 200.
Proof.
  assert (H3 : is_u8 3) by (unfold is_u8; lia).
  assert (H200 : is_u8 200) by (unfold is_u8; lia).
  repeat split; try lia.
  apply (decode_monotone 3 200 H3 H200). lia.
Defined.

(** C8: the extreme raw bytes decode to the extreme degrees. *)
Theorem decode_extremes : decode 0 = 0 /\ decode 255 = 180.
Proof. split; reflexivity. Qed.

End Decoding.

(** ** The scan buffer *)

Section Buffer.

Lemma in_bounds_true k : 0 <= k < BUFFER_SIZE -> in_bounds k = true.
Proof.
  intros Hk. unfold in_bounds.
  apply andb_true_intro. split; [apply Z.leb_le | apply Z.ltb_lt]; lia.
Qed.

Lemma in_bounds_false k : ~ 0 <= k < BUFFER_SIZE -> in_bounds k = false.
Proof.
  intros Hk. unfold in_bounds.
  destruct (Z.leb_spec 0 k), (Z.ltb_spec k BUFFER_SIZE); simpl; trivial; lia.
Qed.

Lemma load_inside m k :
  buffer_ok m -> 0 <= k < BUFFER_SIZE ->
  exists b, _buffer m !! Z.to_nat k = Some b /\ is_u8 b /\
            load k m = Done b (log_access (Load k) m).
Proof.
  intros [Hlen Hbytes] Hk.
  destruct (lookup_lt_is_Some_2 (_buffer m) (Z.to_nat k)) as [b Hb].
  { rewrite Hlen. lia. }
  exists b. split; [exact Hb |]. split.
  - rewrite Forall_lookup in Hbytes. exact (Hbytes _ _ Hb).
  - unfold load. rewrite in_bounds_true by exact Hk. rewrite Hb. reflexivity.
Qed.

Lemma load_outside m k :
  ~ 0 <= k < BUFFER_SIZE -> load k m = Fault (OutOfBounds k).
Proof. intros Hk. unfold load. rewrite in_bounds_false by exact Hk. reflexivity. Qed.

Lemma store_inside m k v :
  buffer_ok m -> 0 <= k < BUFFER_SIZE ->
  store k v m =
    Done tt (log_access (Store k)
               (set_buffer (<[Z.to_nat k := u8 v]> (_buffer m)) m)).
Proof.
  intros [Hlen _] Hk. unfold store. rewrite in_bounds_true by exact Hk.
  destruct (Nat.ltb_spec (Z.to_nat k) (length (_buffer m))) as [_ | Hge];
    [reflexivity | lia].
Qed.

Lemma store_outside m k v :
  ~ 0 <= k < BUFFER_SIZE -> store k v m = Fault (OutOfBounds k).
Proof. intros Hk. unfold store. rewrite in_bounds_false by exact Hk. reflexivity. Qed.

Lemma buffer_ok_ext m m' :
  _buffer m' = _buffer m -> buffer_ok m -> buffer_ok m'.
Proof. unfold buffer_ok. intros ->. trivial. Qed.

Lemma buffer_ok_update m n v :
  buffer_ok m -> buffer_ok (set_buffer (<[n := u8 v]> (_buffer m)) m).
Proof.
  intros [Hlen Hbytes]. split; simpl.
  - rewrite length_insert. exact Hlen.
  - apply Forall_insert; [exact Hbytes | apply u8_range].
Qed.

Lemma high_nibble h : is_u8 h -> s16 (Z.shiftr h 4) = h / 16 /\ 0 <= h / 16 <= 15.
Proof.
  unfold is_u8. intros Hh. rewrite Z.shiftr_div_pow2 by lia.
  change (2 ^ 4) with 16.
  assert (0 <= h / 16 <= 15) by (Z.div_mod_to_equations; lia).
  split; [apply s16_small; unfold is_s16; lia | assumption].
Qed.

Lemma low_nibble h :
  is_u8 h ->
  Z.land h 15 = h mod 16 /\ u8 (Z.land h 15) = h mod 16 /\
  s16 (u8 (Z.land h 15)) = h mod 16 /\ 0 <= h mod 16 <= 15.
Proof.
  unfold is_u8. intros Hh.
  assert (Hland : Z.land h 15 = h mod 16).
  { change 15 with (Z.ones 4). rewrite Z.land_ones by lia. reflexivity. }
  assert (Hr : 0 <= h mod 16 <= 15) by (Z.div_mod_to_equations; lia).
  rewrite Hland.
  rewrite (u8_small (h mod 16)) by (unfold is_u8; lia).
  repeat split; try lia.
  apply s16_small. unfold is_s16. lia.
Qed.

(** [objectCount()] returns the high nibble of the header and only
    reads. *)
Lemma objectCount_spec m :
  buffer_ok m ->
  exists h, _buffer m !! 0%nat = Some h /\ is_u8 h /\
            objectCount m = Done (h / 16) (log_access (Load 0) m).
Proof.
  intros Hok.
  destruct (load_inside m 0 Hok) as (h & Hh & Hbyte & Hload);
    [unfold BUFFER_SIZE, MAXOBJECTS; lia |].
  exists h. split; [exact Hh |]. split; [exact Hbyte |].
  unfold objectCount. run. rewrite Hload.
  destruct (high_nibble h Hbyte) as [-> _]. reflexivity.
Qed.

(** [pathCount()] returns the low nibble of the header, and writes it
    back over the header. *)
Lemma pathCount_spec m :
  buffer_ok m ->
  exists h, _buffer m !! 0%nat = Some h /\ is_u8 h /\
            pathCount m =
              Done (h mod 16)
                   (log_access (Store 0)
                      (set_buffer (<[0%nat := h mod 16]> (_buffer m))
                         (log_access (Load 0) m))).
Proof.
  intros Hok.
  destruct (load_inside m 0 Hok) as (h & Hh & Hbyte & Hload);
    [unfold BUFFER_SIZE, MAXOBJECTS; lia |].
  exists h. split; [exact Hh |]. split; [exact Hbyte |].
  unfold pathCount. run. rewrite Hload.
  rewrite store_inside;
    [| eapply buffer_ok_ext; [| exact Hok]; reflexivity
     | unfold BUFFER_SIZE, MAXOBJECTS; lia].
  destruct (low_nibble h Hbyte) as (Hland & Hu8 & Hs16 & _).
  rewrite Hs16, Hu8. reflexivity.
Qed.

End Buffer.

(** ** Accessors *)

Section Accessors.

Lemma buffer_ok_fresh c h : is_u8 h -> buffer_ok (fresh c h).
Proof.
  intros Hh. split; [reflexivity |]. simpl.
  apply Forall_cons. split; [exact Hh |].
  apply Forall_replicate. unfold is_u8. lia.
Qed.

Lemma buffer_ok_two_objects_one_path : buffer_ok two_objects_one_path.
Proof.
  split; [reflexivity |]. simpl.
  repeat (apply Forall_cons; split; [unfold is_u8; lia |]).
  apply Forall_nil. trivial.
Qed.

(** Whatever the header held, once [pathCount()] has run
    [objectCount()] answers 0. *)
Lemma objectCount_after_pathCount m :
  buffer_ok m ->
  exists p m1 m2, pathCount m = Done p m1 /\ objectCount m1 = Done 0 m2.
Proof.
  intros Hok.
  destruct (pathCount_spec m Hok) as (h & Hh & Hbyte & Hrun).
  rewrite Hrun. eexists _, _.
  assert (Hok1 : buffer_ok
                   (log_access (Store 0)
                      (set_buffer (<[0%nat := h mod 16]> (_buffer m))
                         (log_access (Load 0) m)))).
  { destruct (low_nibble h Hbyte) as (_ & Hu8 & _ & _). rewrite <- Hu8.
    eapply buffer_ok_ext;
      [| apply (buffer_ok_update m 0%nat (Z.land h 15) Hok)].
    reflexivity. }
  destruct (objectCount_spec _ Hok1) as (h' & Hh' & _ & Hrun').
  simpl in Hh'. rewrite list_lookup_insert_eq in Hh'.
  - injection Hh' as <-. rewrite Hrun'.
    replace (h mod 16 / 16) with 0 by (Z.div_mod_to_equations; lia).
    eexists. split; reflexivity.
  - destruct Hok as [Hlen _]. rewrite Hlen. unfold BUFFER_SIZE, MAXOBJECTS. lia.
Qed.

(** C1, where the driver departs from it: on the buffer of the scenario
    "two objects, one path" (header 0x21), [objectCount()] answers 2;
    [pathCount()] answers the low nibble, 1, but stores it over the
    header, after which [objectCount()] answers 0. *)
Theorem pathCount_overwrites_header :
  exists m1 m2 m3,
    objectCount two_objects_one_path = Done 2 m1 /\
    pathCount two_objects_one_path = Done 1 m2 /\
    _buffer two_objects_one_path !! 0%nat = Some 0x21 /\
    _buffer m2 !! 0%nat = Some 0x01 /\
    stores (accesses m2) = [0] /\
    objectCount m2 = Done 0 m3.
Proof. eexists _, _, _. repeat split. Qed.

(** Where the record of [i] lies inside the buffer the angle
    accessors keep their contract: for every scan buffer and every index
    [i], when [0 <= i < objectCount()] and [i < MAXOBJECTS] then
    [objectAngle(i)] is in [0, 180], and when [i >= objectCount()] then
    [objectAngle(i) = -1]; likewise for [pathAngle] against
    [pathCount()]. *)
Theorem angle_in_range_or_sentinel m i :
  buffer_ok m ->
  angle_contract objectCount objectAngle m i /\
  angle_contract pathCount pathAngle m i.
Proof.
  intros Hok. split.
  - destruct (objectCount_spec m Hok) as (h & Hh & Hbyte & Hrun).
    destruct (high_nibble h Hbyte) as [_ Hn].
    exists (h / 16), (log_access (Load 0) m).
    split; [exact Hrun |]. split; [exact Hn |]. split.
    + intros Hi Hcap. unfold objectAngle. run. rewrite Hrun.
      destruct (Z.geb_spec i (h / 16)); [lia |].
      destruct (Z.ltb_spec i 0); [lia |]. simpl.
      destruct (load_inside (log_access (Load 0) m) (1 + 4 * i))
        as (raw & _ & Hraw & ->).
      * eapply buffer_ok_ext; [| exact Hok]. reflexivity.
      * unfold BUFFER_SIZE. lia.
      * eexists _, _. split; [reflexivity | apply decode_range, Hraw].
    + intros Hi. unfold objectAngle. run. rewrite Hrun.
      destruct (Z.geb_spec i (h / 16)); [| lia]. simpl.
      eexists. reflexivity.
  - destruct (pathCount_spec m Hok) as (h & Hh & Hbyte & Hrun).
    destruct (low_nibble h Hbyte) as (_ & Hu8 & _ & Hn).
    eexists (h mod 16), _.
    split; [exact Hrun |]. split; [exact Hn |]. split.
    + intros Hi Hcap. unfold pathAngle. run. rewrite Hrun.
      destruct (Z.geb_spec i (h mod 16)); [lia |].
      destruct (Z.ltb_spec i 0); [lia |]. simpl.
      match goal with
      | |- context [load ?k ?m1] =>
          destruct (load_inside m1 k) as (raw & _ & Hraw & ->)
      end.
      * rewrite <- Hu8. eapply buffer_ok_ext;
          [| apply (buffer_ok_update m 0%nat (Z.land h 15) Hok)].
        reflexivity.
      * unfold BUFFER_SIZE. lia.
      * eexists _, _. split; [reflexivity | apply decode_range, Hraw].
    + intros Hi. unfold pathAngle. run. rewrite Hrun.
      destruct (Z.geb_spec i (h mod 16)); [| lia]. simpl.
      eexists. reflexivity.
Qed.

Lemma angle_in_range_or_sentinel_witness :
  buffer_ok two_objects_one_path /\
  angle_contract objectCount objectAngle two_objects_one_path 1 /\
  angle_contract pathCount pathAngle two_objects_one_path 1.
Proof.
  split; [exact buffer_ok_two_objects_one_path |].
  apply (angle_in_range_or_sentinel two_objects_one_path 1).
  exact buffer_ok_two_objects_one_path.
Defined.

(** On every buffer whose two counts do not exceed [MAXOBJECTS] -- all
    that a sensor of that capacity sends -- the contract holds as the
    spec states it, at every index. *)
Lemma angle_contract_within_capacity m i :
  buffer_ok m ->
  (forall h, _buffer m !! 0%nat = Some h ->
             h / 16 <= MAXOBJECTS /\ h mod 16 <= MAXOBJECTS) ->
  angle_contract_as_stated objectCount objectAngle m i /\
  angle_contract_as_stated pathCount pathAngle m i.
Proof.
  intros Hok Hcap.
  destruct (angle_in_range_or_sentinel m i Hok)
    as [(n & m1 & Hn & _ & Hin & Hout) (p & m2 & Hp & _ & Hin' & Hout')].
  destruct (objectCount_spec m Hok) as (h & Hh & _ & Hobj).
  destruct (pathCount_spec m Hok) as (h' & Hh' & _ & Hpath).
  rewrite Hh in Hh'. injection Hh' as <-.
  destruct (Hcap h Hh) as [Hcapo Hcapp].
  rewrite Hobj in Hn. injection Hn as <- _.
  rewrite Hpath in Hp. injection Hp as <- _.
  split.
  - exists (h / 16). eexists. split; [exact Hobj |]. split; [| exact Hout].
    intros Hi. apply Hin; lia.
  - exists (h mod 16). eexists. split; [exact Hpath |]. split; [| exact Hout'].
    intros Hi. apply Hin'; lia.
Qed.

(** C3, where the driver departs from it: the guard of an angle accessor
    bounds the index by the count of the header, a nibble up to 15, and
    by nothing else.  With header 0xF0 the count is 15, index 8 is below
    it, and [objectAngle(8)] indexes [_buffer[33]], one past the 33
    bytes of the array; with header 0x0F, [pathAngle(8)] indexes
    [_buffer[35]].  No byte of the scan stands behind the angle. *)
Theorem angle_accessors_index_past_buffer :
  buffer_ok (fresh SERIALCOMM 0xF0) /\ buffer_ok (fresh SERIALCOMM 0x0F) /\
  (exists m1, objectCount (fresh SERIALCOMM 0xF0) = Done 15 m1) /\
  (exists m2, pathCount (fresh SERIALCOMM 0x0F) = Done 15 m2) /\
  0 <= 8 < 15 /\
  in_bounds (1 + 4 * 8) = false /\ in_bounds (3 + 4 * 8) = false /\
  objectAngle 8 (fresh SERIALCOMM 0xF0) = Fault (OutOfBounds 33) /\
  pathAngle 8 (fresh SERIALCOMM 0x0F) = Fault (OutOfBounds 35).
Proof.
  split; [apply buffer_ok_fresh; unfold is_u8; lia |].
  split; [apply buffer_ok_fresh; unfold is_u8; lia |].
  split; [eexists; reflexivity |].
  split; [eexists; reflexivity |].
  split; [lia |].
  repeat split.
Qed.

End Accessors.

(** ** Negative indices *)

Section NegativeIndex.

Lemma guard_negative i n : i < 0 -> (i >=? n) || (i <? 0) = true.
Proof.
  intros Hi. apply orb_true_intro. right. apply Z.ltb_lt. exact Hi.
Qed.

Lemma object_guard_sentinel (body : Z -> M Z) m i :
  buffer_ok m -> i < 0 ->
  sentinel_reading_header_only
    (n ← objectCount; if (i >=? n) || (i <? 0) then mret (-1) else body i) m.
Proof.
  intros Hok Hi.
  destruct (objectCount_spec m Hok) as (h & _ & _ & Hrun).
  exists (log_access (Load 0) m), [Load 0]. run. rewrite Hrun.
  rewrite guard_negative by exact Hi.
  split; [reflexivity |]. split; [reflexivity |].
  apply Forall_cons. split; [reflexivity | apply Forall_nil; trivial].
Qed.

Lemma path_guard_sentinel (body : Z -> M Z) m i :
  buffer_ok m -> i < 0 ->
  sentinel_reading_header_only
    (n ← pathCount; if (i >=? n) || (i <? 0) then mret (-1) else body i) m.
Proof.
  intros Hok Hi.
  destruct (pathCount_spec m Hok) as (h & _ & _ & Hrun).
  eexists _, [Load 0; Store 0]. run. rewrite Hrun.
  rewrite guard_negative by exact Hi.
  split; [reflexivity |]. split.
  - simpl. rewrite <- app_assoc. reflexivity.
  - apply Forall_cons. split; [reflexivity | apply Forall_nil; trivial].
Qed.

(** C10: for every negative index and every scan buffer, each of
    [objectAngle], [objectVisibility], [pathAngle] and [pathVisibility]
    returns the sentinel -1 and loads from no record byte (the guard
    consults the header, index 0, alone). *)
Theorem negative_index_sentinel m i :
  buffer_ok m -> i < 0 ->
  sentinel_reading_header_only (objectAngle i) m /\
  sentinel_reading_header_only (objectVisibility i) m /\
  sentinel_reading_header_only (pathAngle i) m /\
  sentinel_reading_header_only (pathVisibility i) m.
Proof.
  intros Hok Hi. repeat split.
  - apply (object_guard_sentinel
             (fun ob => raw ← load (1 + 4 * ob); mret (decode raw))); assumption.
  - apply (object_guard_sentinel
             (fun ob => vis ← load (2 + 4 * ob); mret (s16 vis))); assumption.
  - apply (path_guard_sentinel
             (fun pa => raw ← load (3 + 4 * pa); mret (decode raw))); assumption.
  - apply (path_guard_sentinel
             (fun pa => vis ← load (4 + 4 * pa); mret (s16 vis))); assumption.
Qed.

Lemma negative_index_sentinel_witness :
  buffer_ok two_objects_one_path /\ -1 < 0 /\
  sentinel_reading_header_only (objectAngle (-1)) two_objects_one_path.
Proof.
  split; [exact buffer_ok_two_objects_one_path |].
  split; [lia |].
  apply (negative_index_sentinel two_objects_one_path (-1)
           buffer_ok_two_objects_one_path).
  lia.
Defined.

End NegativeIndex.

(** ** Configuration commands *)

Section Configuration.

Variables SCANTIME I2CADDR BAUDRATE : Z.

Lemma payloads_on_wire m frame :
  initialised m -> payloads (on_wire m frame) = [frame].
Proof. unfold on_wire. intros [-> | ->]; reflexivity. Qed.

(** On an initialised handle [_write] hands the first [n] bytes of the
    array to the transport the handle is bound to. *)
Lemma _write_spec m arrayBuffer n :
  initialised m ->
  exists m', _write arrayBuffer n m = Done tt m' /\
             sent m' = sent m ++ on_wire m (take (Z.to_nat n) arrayBuffer).
Proof.
  unfold _write, on_wire. intros [Hc | Hc]; rewrite Hc.
  - eexists. split; [reflexivity |]. simpl.
    rewrite <- !app_assoc. reflexivity.
  - eexists. split; [reflexivity |]. reflexivity.
Qed.

Lemma emission_of_write (in_range : Prop) (c : M unit) m arrayBuffer n body :
  initialised m -> in_range ->
  c m = _write arrayBuffer n m ->
  take (Z.to_nat n) arrayBuffer = body ++ [0x0A] ->
  config_emission in_range c m.
Proof.
  intros Hinit Hin Hc Hframe.
  destruct (_write_spec m arrayBuffer n Hinit) as (m' & Hrun & Hsent).
  exists m', (on_wire m (take (Z.to_nat n) arrayBuffer)).
  rewrite Hc, (payloads_on_wire _ _ Hinit).
  split; [exact Hrun |]. split; [exact Hsent |]. split; [| split].
  - split; [discriminate | trivial].
  - intros Hout. contradiction.
  - intros frame [<- | []]. exists body. exact Hframe.
Qed.

Lemma emission_of_skip (in_range : Prop) (c : M unit) m :
  ~ in_range -> c m = Done tt m -> config_emission in_range c m.
Proof.
  intros Hout Hc. exists m, []. rewrite Hc, app_nil_r.
  split; [reflexivity |]. split; [reflexivity |]. split; [| split].
  - split; [intros Hin; contradiction | intros Hne; contradiction Hne; reflexivity].
  - intros _. split; reflexivity.
  - intros frame [].
Qed.

Lemma scanTime_emission m v :
  initialised m -> config_emission (scan_time_in_range v) (scanTime SCANTIME v) m.
Proof.
  intros Hinit. unfold scanTime, scan_time_in_range, MINDUR.
  destruct (Z.geb_spec v 1), (Z.leb_spec v (15 - 1)); simpl.
  - eapply emission_of_write with (body := [SCANTIME; 15]);
      [exact Hinit | lia | reflexivity | reflexivity].
  - destruct (Z.geb_spec v 0), (Z.leb_spec v 32767); simpl;
      try (apply emission_of_skip; [lia | reflexivity]).
    eapply emission_of_write
      with (body := [SCANTIME; u8 (Z.land v 255); u8 (Z.shiftr v 8)]);
      [exact Hinit | lia | reflexivity | reflexivity].
  - destruct (Z.geb_spec v 0), (Z.leb_spec v 32767); simpl;
      try (apply emission_of_skip; [lia | reflexivity]).
    eapply emission_of_write
      with (body := [SCANTIME; u8 (Z.land v 255); u8 (Z.shiftr v 8)]);
      [exact Hinit | lia | reflexivity | reflexivity].
  - lia.
Qed.

Lemma setNewI2Caddress_emission m v :
  initialised m ->
  config_emission (address_in_range v) (setNewI2Caddress I2CADDR v) m.
Proof.
  intros Hinit. unfold setNewI2Caddress, address_in_range.
  destruct (Z.geb_spec v 2), (Z.leb_spec v 127); simpl;
    try (apply emission_of_skip; [lia | reflexivity]).
  eapply emission_of_write with (body := [I2CADDR; u8 v]);
    [exact Hinit | lia | reflexivity | reflexivity].
Qed.

Lemma setNewSerialBaudRate_emission m v :
  initialised m ->
  config_emission (baud_in_range v) (setNewSerialBaudRate BAUDRATE v) m.
Proof.
  intros Hinit. unfold setNewSerialBaudRate, baud_in_range.
  destruct (Z.geb_spec v 1200), (Z.leb_spec v 250000); simpl;
    try (apply emission_of_skip; [lia | reflexivity]).
  eapply emission_of_write
    with (body := [BAUDRATE; u8 (Z.land v 255); u8 (Z.shiftr v 8);
                   u8 (Z.shiftr v 16)]);
    [exact Hinit | lia | reflexivity | reflexivity].
Qed.

(** C5: on a handle bound to a transport, each of [scanTime],
    [setNewI2Caddress] and [setNewSerialBaudRate] emits a command frame
    if and only if its argument is within the documented range (scan
    time [0, 32767], address [2, 127], baud [1200, 250000]); out of
    range nothing is written, and every frame emitted ends in 0x0A. *)
Theorem configuration_emission m v :
  initialised m ->
  config_emission (scan_time_in_range v) (scanTime SCANTIME v) m /\
  config_emission (address_in_range v) (setNewI2Caddress I2CADDR v) m /\
  config_emission (baud_in_range v) (setNewSerialBaudRate BAUDRATE v) m.
Proof.
  intros Hinit. split; [| split].
  - apply scanTime_emission, Hinit.
  - apply setNewI2Caddress_emission, Hinit.
  - apply setNewSerialBaudRate_emission, Hinit.
Qed.

Lemma le16_split v :
  0 <= v -> le16 (Z.land v 255) (Z.shiftr v 8) = v.
Proof.
  intros Hv. unfold le16. apply Z.bits_inj'. intros n Hn.
  rewrite Z.lor_spec, Z.land_spec.
  change 255 with (Z.ones 8).
  destruct (Z_lt_le_dec n 8) as [Hlow | Hhigh].
  - rewrite Z.ones_spec_low by lia.
    rewrite Z.shiftl_spec_low by lia.
    rewrite andb_true_r, orb_false_r. reflexivity.
  - rewrite Z.ones_spec_high by lia.
    rewrite Z.shiftl_spec by lia. rewrite Z.shiftr_spec by lia.
    rewrite andb_false_r. simpl. f_equal. lia.
Qed.

Lemma scan_time_bytes v :
  0 <= v <= 32767 ->
  u8 (Z.land v 255) = Z.land v 255 /\ u8 (Z.shiftr v 8) = Z.shiftr v 8.
Proof.
  intros Hv. split; apply u8_small; unfold is_u8.
  - change 255 with (Z.ones 8). rewrite Z.land_ones by lia.
    apply Z.mod_pos_bound. lia.
  - rewrite Z.shiftr_div_pow2 by lia. change (2 ^ 8) with 256.
    Z.div_mod_to_equations. lia.
Qed.

(** C6: for every scan time [v] in [MINDUR, 32767], [scanTime(v)]
    emits the frame [{SCANTIME, v & 0xFF, v >> 8, 0x0A}], and the two
    payload bytes read back as a little-endian 16-bit value give [v]. *)
Theorem scanTime_round_trip m v :
  initialised m -> MINDUR <= v <= 32767 ->
  exists m',
    scanTime SCANTIME v m = Done tt m' /\
    sent m' = sent m ++ on_wire m [SCANTIME; Z.land v 255; Z.shiftr v 8; 0x0A] /\
    payloads (on_wire m [SCANTIME; Z.land v 255; Z.shiftr v 8; 0x0A])
      = [[SCANTIME; Z.land v 255; Z.shiftr v 8; 0x0A]] /\
    is_u8 (Z.land v 255) /\ is_u8 (Z.shiftr v 8) /\
    le16 (Z.land v 255) (Z.shiftr v 8) = v.
Proof.
  unfold MINDUR. intros Hinit Hv.
  destruct (scan_time_bytes v ltac:(lia)) as [Hlo Hhi].
  destruct (_write_spec m [SCANTIME; u8 (Z.land v 255); u8 (Z.shiftr v 8); NEWLINE]
              4 Hinit) as (m' & Hrun & Hsent).
  exists m'. unfold scanTime, MINDUR.
  destruct (Z.geb_spec v 1); [| lia].
  destruct (Z.leb_spec v (15 - 1)); [lia |]. simpl.
  destruct (Z.geb_spec v 0); [| lia].
  destruct (Z.leb_spec v 32767); [| lia]. simpl.
  split; [exact Hrun |].
  split; [rewrite Hsent, Hlo, Hhi; reflexivity |].
  split; [apply payloads_on_wire, Hinit |].
  split; [rewrite <- Hlo; apply u8_range |].
  split; [rewrite <- Hhi; apply u8_range |].
  apply le16_split. lia.
Qed.

End Configuration.

Lemma initialised_fresh_serial h : initialised (fresh SERIALCOMM h).
Proof. right. reflexivity. Qed.

Lemma initialised_fresh_wire h : initialised (fresh I2CCOMM h).
Proof. left. reflexivity. Qed.

Lemma configuration_emission_witness :
  initialised (fresh I2CCOMM 0) /\
  config_emission (scan_time_in_range 100) (scanTime 0x53 100) (fresh I2CCOMM 0).
Proof.
  split; [apply initialised_fresh_wire |].
  apply (configuration_emission 0x53 0x41 0x42 (fresh I2CCOMM 0) 100).
  apply initialised_fresh_wire.
Defined.

Lemma scanTime_round_trip_witness :
  initialised (fresh SERIALCOMM 0) /\ MINDUR <= 300 <= 32767 /\
  exists m',
    scanTime 0x53 300 (fresh SERIALCOMM 0) = Done tt m' /\
    sent m' = [SerialWrite [0x53; 0x2C; 0x01; 0x0A]] /\
    le16 0x2C 0x01 = 300.
Proof.
  split; [apply initialised_fresh_serial |].
  split; [unfold MINDUR; lia |].
  destruct (scanTime_round_trip 0x53 (fresh SERIALCOMM 0) 300)
    as (m' & Hrun & Hsent & _ & _ & _ & Hback).
  - apply initialised_fresh_serial.
  - unfold MINDUR. lia.
  - exists m'. split; [exact Hrun |]. split; [exact Hsent | exact Hback].
Defined.

(** ** The scan session *)

Section Scan.

Variable REQUESTDATA : Z.

(** The four ways a turn of the receive loop can go. *)

Lemma gather_stop script n i s d :
  (i <? n) && (d <? maxWait) = false -> gather script n i s d = mret i.
Proof. intros Hc. destruct script; simpl; rewrite Hc; reflexivity. Qed.

Lemma gather_starved n i s d m :
  (i <? n) && (d <? maxWait) = true -> gather [] n i s d m = Fault Starved.
Proof. intros Hc. simpl. rewrite Hc. reflexivity. Qed.

Lemma gather_idle p script n i s d m :
  (i <? n) && (d <? maxWait) = true ->
  _comm m = UNSET \/ u8 (available_now p) = 0 ->
  gather (p :: script) n i s d m =
    gather script n i s (u32 (u32 (clock m + elapsed_turn p) - s))
           (set_clock (u32 (clock m + elapsed_turn p)) m).
Proof.
  intros Hc Hidle. simpl. rewrite Hc. run. unfold _available.
  destruct Hidle as [Hu | Hz].
  - rewrite Hu. reflexivity.
  - destruct (_comm m); rewrite ?Hz; reflexivity.
Qed.

Lemma gather_byte p script n i s d m :
  (i <? n) && (d <? maxWait) = true ->
  initialised m -> u8 (available_now p) <> 0 ->
  gather (p :: script) n i s d m =
    match store i (u8 (next_byte p)) (log_received (u8 (next_byte p)) m) with
    | Done _ m1 =>
        gather script n (i + 1) (u32 (clock m1 + elapsed_store p))
               (u32 (u32 (u32 (clock m1 + elapsed_store p) + elapsed_turn p)
                     - u32 (clock m1 + elapsed_store p)))
               (set_clock (u32 (u32 (clock m1 + elapsed_store p)
                                + elapsed_turn p))
                  (set_clock (u32 (clock m1 + elapsed_store p)) m1))
    | Fault f => Fault f
    end.
Proof.
  intros Hc Hinit Hav. simpl. rewrite Hc. run. unfold _available, _read.
  apply Z.eqb_neq in Hav.
  destruct Hinit as [Hi | Hi]; rewrite Hi; cbv beta iota;
    rewrite Hav; cbv beta iota; rewrite Hi;
    destruct (store i (u8 (next_byte p)) _); reflexivity.
Qed.

(** A turn is idle, or the handle is bound and a byte is there. *)
Lemma turn_cases p m :
  (_comm m = UNSET \/ u8 (available_now p) = 0) \/
  (initialised m /\ u8 (available_now p) <> 0).
Proof.
  unfold initialised.
  destruct (_comm m); destruct (Z.eq_dec (u8 (available_now p)) 0); auto.
Qed.

(** What a successful store leaves alone. *)
Lemma store_done i v m m1 :
  store i v m = Done tt m1 ->
  0 <= i < BUFFER_SIZE /\
  m1 = log_access (Store i)
         (set_buffer (<[Z.to_nat i := u8 v]> (_buffer m)) m).
Proof.
  unfold store, in_bounds. intros Hrun.
  destruct (Z.leb_spec 0 i), (Z.ltb_spec i BUFFER_SIZE);
    simpl in Hrun; try discriminate Hrun.
  destruct (Z.to_nat i <? length (_buffer m))%nat; [| discriminate Hrun].
  injection Hrun as <-. split; [lia | reflexivity].
Qed.

(** The loop counts the bytes it takes from the transport: its result
    is [i] plus the number of bytes added to the record of those
    received. *)
Lemma gather_receives script :
  forall n i s d m k m',
    gather script n i s d m = Done k m' ->
    exists new, received m' = received m ++ new /\
                k = i + Z.of_nat (length new).
Proof.
  induction script as [| p script IH]; intros n i s d m k m' Hrun;
    destruct ((i <? n) && (d <? maxWait)) eqn:Hc;
    try (rewrite gather_stop in Hrun by exact Hc;
         injection Hrun as <- <-; exists [];
         rewrite app_nil_r; simpl; split; [reflexivity | lia]).
  - rewrite gather_starved in Hrun by exact Hc. discriminate Hrun.
  - destruct (turn_cases p m) as [Hidle | [Hinit Hav]].
    + rewrite gather_idle in Hrun by assumption.
      apply IH in Hrun. exact Hrun.
    + rewrite gather_byte in Hrun by assumption.
      destruct (store i (u8 (next_byte p)) _) as [[] m1 | f] eqn:Hst;
        [| discriminate Hrun].
      apply store_done in Hst as [_ ->].
      apply IH in Hrun as (new & Hrec & Hk). simpl in Hrec.
      exists (u8 (next_byte p) :: new). split.
      * rewrite Hrec, <- app_assoc. reflexivity.
      * rewrite Hk. simpl length. lia.
Qed.

(** [_requestData] leaves the buffer and the record of received bytes
    alone. *)
Lemma _requestData_done n m :
  exists m1, _requestData REQUESTDATA n m = Done tt m1 /\
             received m1 = received m /\ _buffer m1 = _buffer m /\
             _comm m1 = _comm m /\ clock m1 = clock m.
Proof.
  unfold _requestData, _write.
  destruct (_comm m) eqn:Hc; eexists; (split; [reflexivity |]);
    simpl; rewrite ?Hc; repeat split; reflexivity.
Qed.

(** [read] answers true exactly when the call took a byte from the
    transport. *)
Lemma read_reports_reception obs script m r m' :
  read REQUESTDATA obs script m = Done r m' ->
  exists new, received m' = received m ++ new /\
              (r = true <-> new <> []) /\ (r = false <-> new = []).
Proof.
  unfold read. run. intros Hrun.
  match type of Hrun with
  | context [_requestData _ ?n ?m0] =>
      destruct (_requestData_done n m0) as (m1 & Hreq & Hrec & _)
  end.
  rewrite Hreq in Hrun. unfold micros in Hrun.
  match type of Hrun with
  | context [gather ?sc ?n ?i ?s ?d ?m2] =>
      destruct (gather sc n i s d m2) as [k m3 | f] eqn:Hg;
        [| discriminate Hrun]
  end.
  apply gather_receives in Hg as (new & Hnew & Hk).
  simpl in Hnew, Hrec. rewrite Hrec in Hnew.
  injection Hrun as <- <-. exists new. split; [exact Hnew |].
  destruct new as [| b new]; simpl in Hk.
  - subst k. simpl. split; split; congruence.
  - destruct (Z.eqb_spec k 0) as [Hz | _]; [lia |].
    split; split; congruence.
Qed.


Lemma u32_since t e : 0 <= e < 2 ^ 32 -> u32 (u32 (t + e) - t) = e.
Proof.
  intros He. unfold u32. rewrite Zminus_mod_idemp_l.
  replace (t + e - t) with e by lia. apply Z.mod_small. exact He.
Qed.


(** The byte count of a request clamped from a non-negative budget
    fits the buffer. *)
Lemma numBytes_fits obs :
  0 <= obs ->
  0 <= numBytes_of (if obs >? MAXOBJECTS then MAXOBJECTS else obs)
    <= BUFFER_SIZE.
Proof.
  intros Hobs. unfold numBytes_of, BUFFER_SIZE, MAXOBJECTS.
  destruct (Z.gtb_spec obs 8).
  - vm_compute. split; discriminate.
  - rewrite u8_small by (unfold is_u8; lia). lia.
Qed.


(** On a transport that never shows a byte the loop stores nothing. *)
Lemma gather_silent script :
  forall n i s d m k m',
    Forall (fun p => u8 (available_now p) = 0) script ->
    gather script n i s d m = Done k m' -> k = i /\ received m' = received m.
Proof.
  induction script as [| p script IH]; intros n i s d m k m' Hquiet Hrun;
    destruct ((i <? n) && (d <? maxWait)) eqn:Hc;
    try (rewrite gather_stop in Hrun by exact Hc;
         injection Hrun as <- <-; split; reflexivity).
  - rewrite gather_starved in Hrun by exact Hc. discriminate Hrun.
  - apply Forall_cons in Hquiet as [Hp Hquiet].
    rewrite gather_idle in Hrun by (try exact Hc; right; exact Hp).
    apply IH in Hrun; [exact Hrun | exact Hquiet].
Qed.

(** No byte delivered: [read] answers false. *)
Lemma read_silent_transport obs script m r m' :
  Forall (fun p => u8 (available_now p) = 0) script ->
  read REQUESTDATA obs script m = Done r m' -> r = false.
Proof.
  unfold read. run. intros Hquiet Hrun.
  match type of Hrun with
  | context [_requestData _ ?n ?m0] =>
      destruct (_requestData_done n m0) as (m1 & Hreq & _)
  end.
  rewrite Hreq in Hrun. unfold micros in Hrun.
  match type of Hrun with
  | context [gather ?sc ?n ?i ?s ?d ?m2] =>
      destruct (gather sc n i s d m2) as [k m3 | f] eqn:Hg;
        [| discriminate Hrun]
  end.
  apply gather_silent in Hg as [-> _]; [| exact Hquiet].
  injection Hrun as <- _. reflexivity.
Qed.

(** A byte ready at the first turn on a bound handle: a [read] that
    returns answers true. *)
Lemma read_first_byte obs p script m r m' :
  initialised m -> u8 (available_now p) <> 0 ->
  read REQUESTDATA obs (p :: script) m = Done r m' -> r = true.
Proof.
  intros Hinit Hav. remember (p :: script) as turns eqn:Hturns.
  unfold read. run. intros Hrun.
  match type of Hrun with
  | context [_requestData _ ?n ?m0] =>
      destruct (_requestData_done n m0) as (m1 & Hreq & _ & _ & Hcomm & _)
  end.
  rewrite Hreq in Hrun. unfold micros in Hrun.
  match type of Hrun with
  | context [gather ?sc ?n ?i ?s ?d ?m2] =>
      destruct (gather sc n i s d m2) as [k m3 | f] eqn:Hg;
        [| discriminate Hrun]
  end.
  injection Hrun as <- _.
  assert (Hn : (0 <? numBytes_of (if obs >? MAXOBJECTS then MAXOBJECTS else obs))
               && (0 <? maxWait) = true).
  { apply andb_true_intro. split; [| reflexivity].
    apply Z.ltb_lt. unfold numBytes_of, u8.
    match goal with |- 0 < (1 + ?x * 4) mod 256 =>
      assert ((1 + x * 4) mod 256 <> 0)
        by (intros Hz; apply Z.mod_divide in Hz; [| lia];
            destruct Hz as [q Hq]; lia);
      pose proof (Z.mod_pos_bound (1 + x * 4) 256 ltac:(lia))
    end. lia. }
  subst turns. rewrite gather_byte in Hg;
    [| exact Hn | unfold initialised in *; simpl; rewrite Hcomm; exact Hinit
     | exact Hav].
  destruct (store 0 _ _) as [[] m4 | f]; [| discriminate Hg].
  apply gather_receives in Hg as (new & _ & ->).
  destruct (Z.eqb_spec (0 + 1 + Z.of_nat (length new)) 0); [lia | reflexivity].
Qed.

End Scan.

Section ScanScenarios.

Variable REQUESTDATA : Z.


(** Scenario "no response": nothing arrives, [read] answers false. *)
Example read_no_response :
  exists m', read REQUESTDATA 8 silence (fresh SERIALCOMM 0) = Done false m' /\
             received m' = [] /\ _buffer m' = _buffer (fresh SERIALCOMM 0).
Proof. eexists. split; [lazy; reflexivity |]. repeat split. Qed.

(** Scenario "partial then timeout": one byte arrives, [read] answers
    true and the header is in place. *)
Example read_partial_response :
  exists m', read REQUESTDATA 8 partial_then_silence (fresh I2CCOMM 0)
             = Done true m' /\
             received m' = [0x10] /\ _buffer m' !! 0%nat = Some 0x10 /\
             sent m' = [WireRequestFrom 0x45 33].
Proof. eexists. split; [lazy; reflexivity |]. repeat split. Qed.

(** C9, where the driver departs from it: the budget is clamped from
    above only.  For [read(-1)] the byte count [1 + 4*(-1) = -3]
    narrows to 253, far above the 33 bytes of the buffer, and a
    transport that keeps delivering makes the 34th byte land on
    [_buffer[33]]. *)
Theorem read_negative_budget_overruns :
  numBytes_of (if -1 >? MAXOBJECTS then MAXOBJECTS else -1) = 253 /\
  BUFFER_SIZE = 33 /\
  read REQUESTDATA (-1) (flood 34) (fresh SERIALCOMM 0)
    = Fault (OutOfBounds 33).
Proof. repeat split. Qed.

End ScanScenarios.

(** ** The accessor surface, index by index *)

Section AccessorSurface.

(** The common shape of the two object accessors and of the two path
    accessors: the guard against the count, then the byte at [off + 4*i]
    passed through [f]. *)
Local Abbreviation object_accessor off f i :=
  (n ← objectCount;
   if (i >=? n) || (i <? 0) then mret (-1)
   else raw ← load (off + 4 * i); mret (f raw)).

Local Abbreviation path_accessor off f i :=
  (n ← pathCount;
   if (i >=? n) || (i <? 0) then mret (-1)
   else raw ← load (off + 4 * i); mret (f raw)).

Lemma load_done k m b m' :
  load k m = Done b m' ->
  m' = log_access (Load k) m /\ _buffer m !! Z.to_nat k = Some b /\
  0 <= k < BUFFER_SIZE.
Proof.
  unfold load, in_bounds. intros Hrun.
  destruct (Z.leb_spec 0 k), (Z.ltb_spec k BUFFER_SIZE);
    simpl in Hrun; try discriminate Hrun.
  destruct (_buffer m !! Z.to_nat k) as [b' |]; [| discriminate Hrun].
  injection Hrun as <- <-. repeat split; lia.
Qed.

Lemma objectCount_run m h :
  buffer_ok m -> header m = Some h ->
  is_u8 h /\ objectCount m = Done (h / 16) (log_access (Load 0) m).
Proof.
  intros Hok Hh.
  destruct (objectCount_spec m Hok) as (h' & Hh' & Hbyte & Hrun).
  unfold header in Hh. rewrite Hh in Hh'. injection Hh' as <-.
  split; assumption.
Qed.

Lemma buffer_ok_masked m h : buffer_ok m -> is_u8 h -> buffer_ok (masked h m).
Proof.
  intros Hok Hbyte. destruct (low_nibble h Hbyte) as (_ & Hu8 & _ & _).
  unfold masked. rewrite <- Hu8.
  eapply buffer_ok_ext; [| apply (buffer_ok_update m 0%nat (Z.land h 15) Hok)].
  reflexivity.
Qed.

Lemma pathCount_run m h :
  buffer_ok m -> header m = Some h ->
  is_u8 h /\ pathCount m = Done (h mod 16) (masked h m).
Proof.
  intros Hok Hh.
  destruct (pathCount_spec m Hok) as (h' & Hh' & Hbyte & Hrun).
  unfold header in Hh. rewrite Hh in Hh'. injection Hh' as <-.
  split; assumption.
Qed.

Lemma record_offset off i :
  1 <= off <= 4 -> 0 <= i < MAXOBJECTS -> 1 <= off + 4 * i < BUFFER_SIZE.
Proof. unfold MAXOBJECTS, BUFFER_SIZE, MAXOBJECTS. lia. Qed.

Lemma object_hit off f m i h :
  buffer_ok m -> header m = Some h ->
  1 <= off <= 4 -> 0 <= i < h / 16 -> i < MAXOBJECTS ->
  exists raw,
    _buffer m !! Z.to_nat (off + 4 * i) = Some raw /\ is_u8 raw /\
    object_accessor off f i m =
      Done (f raw) (log_access (Load (off + 4 * i)) (log_access (Load 0) m)).
Proof.
  intros Hok Hh Hoff Hi Hcap.
  destruct (objectCount_run m h Hok Hh) as [_ Hrun].
  pose proof (record_offset off i Hoff ltac:(lia)) as Hk.
  destruct (load_inside (log_access (Load 0) m) (off + 4 * i))
    as (raw & Hraw & Hbyte & Hload);
    [eapply buffer_ok_ext; [| exact Hok]; reflexivity | lia |].
  exists raw. split; [exact Hraw |]. split; [exact Hbyte |].
  run. rewrite Hrun.
  destruct (Z.geb_spec i (h / 16)); [lia |].
  destruct (Z.ltb_spec i 0); [lia |]. simpl.
  rewrite Hload. reflexivity.
Qed.

Lemma object_miss off f m i h :
  buffer_ok m -> header m = Some h -> i < 0 \/ h / 16 <= i ->
  object_accessor off f i m = Done (-1) (log_access (Load 0) m).
Proof.
  intros Hok Hh Hi.
  destruct (objectCount_run m h Hok Hh) as [_ Hrun].
  run. rewrite Hrun.
  destruct (Z.geb_spec i (h / 16)), (Z.ltb_spec i 0); simpl;
    try reflexivity; lia.
Qed.

Lemma path_hit off f m i h :
  buffer_ok m -> header m = Some h ->
  1 <= off <= 4 -> 0 <= i < h mod 16 -> i < MAXOBJECTS ->
  exists raw,
    _buffer m !! Z.to_nat (off + 4 * i) = Some raw /\ is_u8 raw /\
    path_accessor off f i m =
      Done (f raw) (log_access (Load (off + 4 * i)) (masked h m)).
Proof.
  intros Hok Hh Hoff Hi Hcap.
  destruct (pathCount_run m h Hok Hh) as [Hbyte Hrun].
  pose proof (record_offset off i Hoff ltac:(lia)) as Hk.
  destruct (load_inside (masked h m) (off + 4 * i))
    as (raw & Hraw & Hu & Hload);
    [apply buffer_ok_masked; assumption | lia |].
  exists raw. split; [| split; [exact Hu |]].
  - simpl in Hraw. rewrite list_lookup_insert_ne in Hraw by lia. exact Hraw.
  - run. rewrite Hrun.
    destruct (Z.geb_spec i (h mod 16)); [lia |].
    destruct (Z.ltb_spec i 0); [lia |]. simpl.
    rewrite Hload. reflexivity.
Qed.

Lemma path_miss off f m i h :
  buffer_ok m -> header m = Some h -> i < 0 \/ h mod 16 <= i ->
  path_accessor off f i m = Done (-1) (masked h m).
Proof.
  intros Hok Hh Hi.
  destruct (pathCount_run m h Hok Hh) as [_ Hrun].
  run. rewrite Hrun.
  destruct (Z.geb_spec i (h mod 16)), (Z.ltb_spec i 0); simpl;
    try reflexivity; lia.
Qed.

Lemma header_two_objects_one_path : header two_objects_one_path = Some 0x21.
Proof. reflexivity. Qed.

(** The header is the two counts packed: [objectCount()] followed by
    [pathCount()] gives nibbles [n] and [p] with [16 * n + p] the header
    byte. *)
Theorem counts_unpack_header m h :
  buffer_ok m -> header m = Some h ->
  exists n p m',
    (n ← objectCount; p ← pathCount; mret (n, p)) m = Done (n, p) m' /\
    0 <= n <= 15 /\ 0 <= p <= 15 /\ 16 * n + p = h.
Proof.
  intros Hok Hh.
  destruct (objectCount_run m h Hok Hh) as [Hbyte Hobj].
  destruct (pathCount_run (log_access (Load 0) m) h) as [_ Hpath];
    [eapply buffer_ok_ext; [| exact Hok]; reflexivity | exact Hh |].
  exists (h / 16), (h mod 16). eexists. run. rewrite Hobj, Hpath.
  split; [reflexivity |].
  unfold is_u8 in Hbyte. Z.div_mod_to_equations. lia.
Qed.

Lemma counts_unpack_header_witness :
  exists n p m',
    (n ← objectCount; p ← pathCount; mret (n, p)) two_objects_one_path
      = Done (n, p) m' /\
    0 <= n <= 15 /\ 0 <= p <= 15 /\ 16 * n + p = 0x21.
Proof.
  exact (counts_unpack_header two_objects_one_path 0x21
           buffer_ok_two_objects_one_path header_two_objects_one_path).
Defined.

Lemma stores_app tr1 tr2 : stores (tr1 ++ tr2) = stores tr1 ++ stores tr2.
Proof. unfold stores. rewrite List.map_app, concat_app. reflexivity. Qed.

Lemma object_accessor_frame off f i m r m' :
  object_accessor off f i m = Done r m' ->
  _buffer m' = _buffer m /\ stores (accesses m') = stores (accesses m) /\
  sent m' = sent m /\ received m' = received m.
Proof.
  unfold objectCount. run. intros Hrun.
  destruct (load 0 m) as [b m1 |] eqn:Hload; [| discriminate Hrun].
  apply load_done in Hload as (-> & _ & _).
  destruct ((i >=? s16 (Z.shiftr b 4)) || (i <? 0)).
  - injection Hrun as <- <-. simpl. rewrite stores_app, app_nil_r.
    repeat split.
  - destruct (load (off + 4 * i) _) as [raw m2 |] eqn:Hload2;
      [| discriminate Hrun].
    apply load_done in Hload2 as (-> & _ & _).
    injection Hrun as <- <-. simpl. rewrite !stores_app, !app_nil_r.
    repeat split.
Qed.

(** The object-side accessors only read: whatever they answer,
    [objectCount()], [objectAngle(i)] and [objectVisibility(i)] leave the
    scan buffer as it was, store to no index, and touch no transport. *)
Theorem object_accessors_read_only m i r m' :
  objectCount m = Done r m' \/ objectAngle i m = Done r m' \/
  objectVisibility i m = Done r m' ->
  _buffer m' = _buffer m /\ stores (accesses m') = stores (accesses m) /\
  sent m' = sent m /\ received m' = received m.
Proof.
  intros [Hrun | [Hrun | Hrun]].
  - unfold objectCount in Hrun. revert Hrun. run. intros Hrun.
    destruct (load 0 m) as [b m1 |] eqn:Hload; [| discriminate Hrun].
    apply load_done in Hload as (-> & _ & _).
    injection Hrun as <- <-. simpl. rewrite stores_app, app_nil_r.
    repeat split.
  - exact (object_accessor_frame 1 decode i m r m' Hrun).
  - exact (object_accessor_frame 2 s16 i m r m' Hrun).
Qed.

Lemma object_accessors_read_only_witness :
  exists r m',
    objectAngle 1 two_objects_one_path = Done r m' /\
    _buffer m' = _buffer two_objects_one_path.
Proof.
  eexists _, _. split; [lazy; reflexivity |].
  apply (object_accessors_read_only two_objects_one_path 1 180).
  right. left. lazy. reflexivity.
Defined.

Lemma path_accessor_frame off f i m r m' h :
  buffer_ok m -> header m = Some h ->
  path_accessor off f i m = Done r m' ->
  _buffer m' = <[0%nat := h mod 16]> (_buffer m) /\
  sent m' = sent m /\ received m' = received m.
Proof.
  intros Hok Hh. destruct (pathCount_run m h Hok Hh) as [_ Hcount].
  run. rewrite Hcount. intros Hrun.
  destruct ((i >=? h mod 16) || (i <? 0)).
  - injection Hrun as <- <-. repeat split.
  - destruct (load (off + 4 * i) _) as [raw m2 |] eqn:Hload;
      [| discriminate Hrun].
    apply load_done in Hload as (-> & _ & _).
    injection Hrun as <- <-. repeat split.
Qed.

(** The path-side accessors write, but to the header alone and only
    once: after [pathCount()], [pathAngle(i)] or [pathVisibility(i)] the
    header holds its low nibble, every record byte is as before, and a
    further [pathCount()] answers the same count. *)
Theorem path_accessors_mask_header_only m i r m' h :
  buffer_ok m -> header m = Some h ->
  pathCount m = Done r m' \/ pathAngle i m = Done r m' \/
  pathVisibility i m = Done r m' ->
  header m' = Some (h mod 16) /\
  drop 1 (_buffer m') = drop 1 (_buffer m) /\
  length (_buffer m') = length (_buffer m) /\
  exists m'', pathCount m' = Done (h mod 16) m''.
Proof.
  intros Hok Hh Hrun.
  assert (Hbuf : _buffer m' = <[0%nat := h mod 16]> (_buffer m)).
  { destruct Hrun as [Hrun | [Hrun | Hrun]].
    - destruct (pathCount_run m h Hok Hh) as [_ Hcount].
      rewrite Hcount in Hrun. injection Hrun as _ <-. reflexivity.
    - exact (proj1 (path_accessor_frame 3 decode i m r m' h Hok Hh Hrun)).
    - exact (proj1 (path_accessor_frame 4 s16 i m r m' h Hok Hh Hrun)). }
  destruct (pathCount_run m h Hok Hh) as [Hbyte _].
  assert (Hlen : (0 < length (_buffer m))%nat).
  { destruct Hok as [-> _]. unfold BUFFER_SIZE, MAXOBJECTS. lia. }
  assert (Hh' : header m' = Some (h mod 16)).
  { unfold header. rewrite Hbuf. apply list_lookup_insert_eq. exact Hlen. }
  split; [exact Hh' |]. split; [| split].
  - rewrite Hbuf. apply drop_insert_lt. lia.
  - rewrite Hbuf. apply length_insert.
  - assert (Hok' : buffer_ok m').
    { eapply buffer_ok_ext; [| apply (buffer_ok_masked m h Hok Hbyte)].
      rewrite Hbuf. reflexivity. }
    destruct (pathCount_run m' (h mod 16) Hok' Hh') as [_ Hagain].
    rewrite Z.mod_mod in Hagain by lia.
    eexists. exact Hagain.
Qed.

Lemma path_accessors_mask_header_only_witness :
  exists r m',
    pathAngle 0 two_objects_one_path = Done r m' /\
    header m' = Some 0x01 /\
    drop 1 (_buffer m') = drop 1 (_buffer two_objects_one_path).
Proof.
  eexists _, _. split; [lazy; reflexivity |].
  destruct (path_accessors_mask_header_only two_objects_one_path 0 90 _ 0x21
              buffer_ok_two_objects_one_path header_two_objects_one_path
              (or_intror (or_introl eq_refl))) as (Hh & Hd & _).
  split; [exact Hh | exact Hd].
Defined.

Lemma s16_byte raw : is_u8 raw -> s16 raw = raw.
Proof. unfold is_u8. intros Hraw. apply s16_small. unfold is_s16. lia. Qed.

(** The record layout: for an index below the count (and inside the
    buffer), [objectAngle(i)] decodes byte [1+4i], [objectVisibility(i)]
    is byte [2+4i], [pathAngle(i)] decodes byte [3+4i] and
    [pathVisibility(i)] is byte [4+4i]. *)
Theorem record_layout m i h :
  buffer_ok m -> header m = Some h -> 0 <= i < MAXOBJECTS ->
  (i < h / 16 ->
   exists angle vis m1 m2,
     _buffer m !! Z.to_nat (1 + 4 * i) = Some angle /\
     _buffer m !! Z.to_nat (2 + 4 * i) = Some vis /\
     objectAngle i m = Done (decode angle) m1 /\
     objectVisibility i m = Done vis m2) /\
  (i < h mod 16 ->
   exists angle vis m1 m2,
     _buffer m !! Z.to_nat (3 + 4 * i) = Some angle /\
     _buffer m !! Z.to_nat (4 + 4 * i) = Some vis /\
     pathAngle i m = Done (decode angle) m1 /\
     pathVisibility i m = Done vis m2).
Proof.
  intros Hok Hh Hi. split; intros Hcount.
  - destruct (object_hit 1 decode m i h Hok Hh) as (a & Ha & _ & Hrun1);
      [lia | lia | lia |].
    destruct (object_hit 2 s16 m i h Hok Hh) as (v & Hv & Hbyte & Hrun2);
      [lia | lia | lia |].
    rewrite (s16_byte v Hbyte) in Hrun2.
    exists a, v. eexists _, _.
    split; [exact Ha |]. split; [exact Hv |].
    split; [exact Hrun1 | exact Hrun2].
  - destruct (path_hit 3 decode m i h Hok Hh) as (a & Ha & _ & Hrun1);
      [lia | lia | lia |].
    destruct (path_hit 4 s16 m i h Hok Hh) as (v & Hv & Hbyte & Hrun2);
      [lia | lia | lia |].
    rewrite (s16_byte v Hbyte) in Hrun2.
    exists a, v. eexists _, _.
    split; [exact Ha |]. split; [exact Hv |].
    split; [exact Hrun1 | exact Hrun2].
Qed.

Lemma record_layout_witness :
  exists m1 m2,
    pathAngle 0 two_objects_one_path = Done (decode 0x80) m1 /\
    pathVisibility 0 two_objects_one_path = Done 0x40 m2.
Proof.
  destruct (record_layout two_objects_one_path 0 0x21
              buffer_ok_two_objects_one_path header_two_objects_one_path)
    as [_ Hpath]; [unfold MAXOBJECTS; lia |].
  destruct Hpath as (a & v & m1 & m2 & Ha & Hv & Hrun1 & Hrun2);
    [reflexivity |].
  injection Ha as <-. injection Hv as <-.
  exists m1, m2. split; [exact Hrun1 | exact Hrun2].
Defined.

Lemma object_accessor_sentinel off f m i h r m' :
  (forall raw, is_u8 raw -> 0 <= f raw) ->
  buffer_ok m -> header m = Some h -> 1 <= off <= 4 -> i < MAXOBJECTS ->
  object_accessor off f i m = Done r m' ->
  (r = -1 <-> i < 0 \/ h / 16 <= i).
Proof.
  intros Hf Hok Hh Hoff Hcap Hrun.
  destruct (Z_lt_le_dec i 0) as [Hneg | Hpos];
    [| destruct (Z_lt_le_dec i (h / 16)) as [Hin | Hout]].
  - rewrite (object_miss off f m i h Hok Hh) in Hrun by lia.
    injection Hrun as <- _. split; [lia | reflexivity].
  - destruct (object_hit off f m i h Hok Hh Hoff) as (raw & _ & Hbyte & Hhit);
      [lia | lia |].
    rewrite Hhit in Hrun. injection Hrun as <- _.
    specialize (Hf raw Hbyte). lia.
  - rewrite (object_miss off f m i h Hok Hh) in Hrun by lia.
    injection Hrun as <- _. split; [lia | reflexivity].
Qed.

Lemma path_accessor_sentinel off f m i h r m' :
  (forall raw, is_u8 raw -> 0 <= f raw) ->
  buffer_ok m -> header m = Some h -> 1 <= off <= 4 -> i < MAXOBJECTS ->
  path_accessor off f i m = Done r m' ->
  (r = -1 <-> i < 0 \/ h mod 16 <= i).
Proof.
  intros Hf Hok Hh Hoff Hcap Hrun.
  destruct (Z_lt_le_dec i 0) as [Hneg | Hpos];
    [| destruct (Z_lt_le_dec i (h mod 16)) as [Hin | Hout]].
  - rewrite (path_miss off f m i h Hok Hh) in Hrun by lia.
    injection Hrun as <- _. split; [lia | reflexivity].
  - destruct (path_hit off f m i h Hok Hh Hoff) as (raw & _ & Hbyte & Hhit);
      [lia | lia |].
    rewrite Hhit in Hrun. injection Hrun as <- _.
    specialize (Hf raw Hbyte). lia.
  - rewrite (path_miss off f m i h Hok Hh) in Hrun by lia.
    injection Hrun as <- _. split; [lia | reflexivity].
Qed.

Lemma decode_nonneg raw : is_u8 raw -> 0 <= decode raw.
Proof. intros Hraw. apply decode_range, Hraw. Qed.

Lemma s16_byte_nonneg raw : is_u8 raw -> 0 <= s16 raw.
Proof. intros Hraw. rewrite s16_byte by exact Hraw. apply Hraw. Qed.

(** The sentinel is unambiguous: for an index whose record the buffer
    has room for, an accessor answers -1 exactly when the index is
    negative or not below the count its guard consults; a stored byte
    never reads as -1. *)
Theorem sentinel_iff_out_of_range m i h r m' :
  buffer_ok m -> header m = Some h -> i < MAXOBJECTS ->
  (objectAngle i m = Done r m' \/ objectVisibility i m = Done r m' ->
   (r = -1 <-> i < 0 \/ h / 16 <= i)) /\
  (pathAngle i m = Done r m' \/ pathVisibility i m = Done r m' ->
   (r = -1 <-> i < 0 \/ h mod 16 <= i)).
Proof.
  intros Hok Hh Hcap. split; intros [Hrun | Hrun].
  - apply (object_accessor_sentinel 1 decode m i h r m' decode_nonneg);
      try assumption; lia.
  - apply (object_accessor_sentinel 2 s16 m i h r m' s16_byte_nonneg);
      try assumption; lia.
  - apply (path_accessor_sentinel 3 decode m i h r m' decode_nonneg);
      try assumption; lia.
  - apply (path_accessor_sentinel 4 s16 m i h r m' s16_byte_nonneg);
      try assumption; lia.
Qed.

Lemma sentinel_iff_out_of_range_witness :
  exists m',
    pathAngle 1 two_objects_one_path = Done (-1) m' /\
    (-1 = -1 <-> 1 < 0 \/ 0x21 mod 16 <= 1).
Proof.
  eexists. split; [lazy; reflexivity |].
  destruct (sentinel_iff_out_of_range two_objects_one_path 1 0x21 (-1)
              (masked 0x21 two_objects_one_path)
              buffer_ok_two_objects_one_path header_two_objects_one_path)
    as [_ Hpath]; [unfold MAXOBJECTS; lia |].
  apply Hpath. left. lazy. reflexivity.
Defined.

(** The overloads without an index always answer, and tell an empty
    scan from a detection: [objectAngle()] and [objectVisibility()]
    answer -1 exactly when no object is counted, [pathAngle()] and
    [pathVisibility()] exactly when no path is; otherwise the angles lie
    in [0, 180] and the visibilities in [0, 255]. *)
Theorem first_record_or_empty m h :
  buffer_ok m -> header m = Some h ->
  (exists r m', objectAngle0 m = Done r m' /\
                (r = -1 <-> h / 16 = 0) /\ (r <> -1 -> 0 <= r <= 180)) /\
  (exists r m', objectVisibility0 m = Done r m' /\
                (r = -1 <-> h / 16 = 0) /\ (r <> -1 -> 0 <= r <= 255)) /\
  (exists r m', pathAngle0 m = Done r m' /\
                (r = -1 <-> h mod 16 = 0) /\ (r <> -1 -> 0 <= r <= 180)) /\
  (exists r m', pathVisibility0 m = Done r m' /\
                (r = -1 <-> h mod 16 = 0) /\ (r <> -1 -> 0 <= r <= 255)).
Proof.
  intros Hok Hh.
  destruct (objectCount_run m h Hok Hh) as [Hbyte _].
  assert (Hn : 0 <= h / 16) by (unfold is_u8 in Hbyte; Z.div_mod_to_equations; lia).
  assert (Hp : 0 <= h mod 16) by (Z.div_mod_to_equations; lia).
  unfold objectAngle0, objectVisibility0, pathAngle0, pathVisibility0.
  repeat split.
  - destruct (Z.eq_dec (h / 16) 0) as [Hz | Hnz].
    + eexists _, _. split;
        [exact (object_miss 1 decode m 0 h Hok Hh ltac:(lia)) |].
      split; [tauto | congruence].
    + destruct (object_hit 1 decode m 0 h Hok Hh) as (raw & _ & Hraw & Hrun);
        [lia | lia | unfold MAXOBJECTS; lia |].
      pose proof (decode_range raw Hraw).
      eexists _, _. split; [exact Hrun |]. split; [split; lia | lia].
  - destruct (Z.eq_dec (h / 16) 0) as [Hz | Hnz].
    + eexists _, _. split;
        [exact (object_miss 2 s16 m 0 h Hok Hh ltac:(lia)) |].
      split; [tauto | congruence].
    + destruct (object_hit 2 s16 m 0 h Hok Hh) as (raw & _ & Hraw & Hrun);
        [lia | lia | unfold MAXOBJECTS; lia |].
      rewrite (s16_byte raw Hraw) in Hrun. unfold is_u8 in Hraw.
      eexists _, _. split; [exact Hrun |]. split; [split; lia | lia].
  - destruct (Z.eq_dec (h mod 16) 0) as [Hz | Hnz].
    + eexists _, _. split;
        [exact (path_miss 3 decode m 0 h Hok Hh ltac:(lia)) |].
      split; [tauto | congruence].
    + destruct (path_hit 3 decode m 0 h Hok Hh) as (raw & _ & Hraw & Hrun);
        [lia | lia | unfold MAXOBJECTS; lia |].
      pose proof (decode_range raw Hraw).
      eexists _, _. split; [exact Hrun |]. split; [split; lia | lia].
  - destruct (Z.eq_dec (h mod 16) 0) as [Hz | Hnz].
    + eexists _, _. split;
        [exact (path_miss 4 s16 m 0 h Hok Hh ltac:(lia)) |].
      split; [tauto | congruence].
    + destruct (path_hit 4 s16 m 0 h Hok Hh) as (raw & _ & Hraw & Hrun);
        [lia | lia | unfold MAXOBJECTS; lia |].
      rewrite (s16_byte raw Hraw) in Hrun. unfold is_u8 in Hraw.
      eexists _, _. split; [exact Hrun |]. split; [split; lia | lia].
Qed.

Lemma first_record_or_empty_witness :
  exists r m', objectAngle0 (fresh SERIALCOMM 0x00) = Done r m' /\
               (r = -1 <-> 0x00 / 16 = 0).
Proof.
  destruct (first_record_or_empty (fresh SERIALCOMM 0x00) 0x00)
    as [(r & m' & Hrun & Hiff & _) _].
  - apply buffer_ok_fresh. unfold is_u8. lia.
  - reflexivity.
  - exists r, m'. split; [exact Hrun | exact Hiff].
Defined.

End AccessorSurface.

(** ** Command frames and the bound transport *)

Section Commands.

Variables SCANTIME I2CADDR BAUDRATE LEDUSAGE SHOWOBJ SHOWPATH LEDOFF : Z.

(** Scan times the sensor cannot hold, 1 to [MINDUR - 1], all go out as
    the one three-byte frame [{SCANTIME, MINDUR, 0x0A}]. *)
Theorem scanTime_clamps_short_periods m v :
  initialised m -> 1 <= v <= MINDUR - 1 ->
  exists m',
    scanTime SCANTIME v m = Done tt m' /\
    sent m' = sent m ++ on_wire m [SCANTIME; MINDUR; 0x0A] /\
    payloads (on_wire m [SCANTIME; MINDUR; 0x0A]) = [[SCANTIME; MINDUR; 0x0A]].
Proof.
  unfold MINDUR. intros Hinit Hv.
  destruct (_write_spec m [SCANTIME; 15; NEWLINE] 3 Hinit) as (m' & Hrun & Hsent).
  exists m'. unfold scanTime, MINDUR.
  destruct (Z.geb_spec v 1); [| lia].
  destruct (Z.leb_spec v (15 - 1)); [| lia]. simpl.
  split; [exact Hrun |]. split; [exact Hsent |].
  apply payloads_on_wire, Hinit.
Qed.

(** A baud rate in [1200, 250000] goes out as
    [{BAUDRATE, b0, b1, b2, 0x0A}] whose three payload bytes, read back
    little-endian, give the rate. *)
Theorem baud_rate_round_trip m v :
  initialised m -> 1200 <= v <= 250000 ->
  exists m' b0 b1 b2,
    setNewSerialBaudRate BAUDRATE v m = Done tt m' /\
    sent m' = sent m ++ on_wire m [BAUDRATE; b0; b1; b2; 0x0A] /\
    is_u8 b0 /\ is_u8 b1 /\ is_u8 b2 /\ le24 b0 b1 b2 = v.
Proof.
  intros Hinit Hv.
  destruct (_write_spec m [BAUDRATE; u8 (Z.land v 255); u8 (Z.shiftr v 8);
                           u8 (Z.shiftr v 16); NEWLINE] 5 Hinit)
    as (m' & Hrun & Hsent).
  exists m', (u8 (Z.land v 255)), (u8 (Z.shiftr v 8)), (u8 (Z.shiftr v 16)).
  unfold setNewSerialBaudRate.
  destruct (Z.geb_spec v 1200); [| lia].
  destruct (Z.leb_spec v 250000); [| lia]. simpl.
  split; [exact Hrun |]. split; [exact Hsent |].
  split; [apply u8_range |]. split; [apply u8_range |].
  split; [apply u8_range |].
  unfold le24, u8. change 255 with (Z.ones 8).
  rewrite Z.land_ones by lia. rewrite !Z.shiftr_div_pow2 by lia.
  change (2 ^ 8) with 256. change (2 ^ 16) with 65536.
  rewrite Z.mod_mod by lia.
  Z.div_mod_to_equations. lia.
Qed.

(** The LED commands reach the transport the handle was bound to:
    after [begin(wire, a)] each is one write of
    [{LEDUSAGE, mode, 0x0A}] inside a transmission to [a] that is begun
    and ended; after [begin(serial)] each is that one write on the
    stream. *)
Theorem led_commands_reach_bound_transport m a :
  (exists m1,
      begin_wire a m = Done tt m1 /\ sent m1 = sent m ++ [WireBegin] /\
      (exists m2,
          LEDshowObject LEDUSAGE SHOWOBJ m1 = Done tt m2 /\
          sent m2 = sent m1 ++ [WireBeginTransmission a;
                                WireWrite [LEDUSAGE; SHOWOBJ; 0x0A];
                                WireEndTransmission]) /\
      (exists m2,
          LEDshowPath LEDUSAGE SHOWPATH m1 = Done tt m2 /\
          sent m2 = sent m1 ++ [WireBeginTransmission a;
                                WireWrite [LEDUSAGE; SHOWPATH; 0x0A];
                                WireEndTransmission]) /\
      (exists m2,
          LEDoff LEDUSAGE LEDOFF m1 = Done tt m2 /\
          sent m2 = sent m1 ++ [WireBeginTransmission a;
                                WireWrite [LEDUSAGE; LEDOFF; 0x0A];
                                WireEndTransmission])) /\
  (exists m1,
      begin_serial m = Done tt m1 /\ sent m1 = sent m /\
      (exists m2,
          LEDshowObject LEDUSAGE SHOWOBJ m1 = Done tt m2 /\
          sent m2 = sent m1 ++ [SerialWrite [LEDUSAGE; SHOWOBJ; 0x0A]]) /\
      (exists m2,
          LEDshowPath LEDUSAGE SHOWPATH m1 = Done tt m2 /\
          sent m2 = sent m1 ++ [SerialWrite [LEDUSAGE; SHOWPATH; 0x0A]]) /\
      (exists m2,
          LEDoff LEDUSAGE LEDOFF m1 = Done tt m2 /\
          sent m2 = sent m1 ++ [SerialWrite [LEDUSAGE; LEDOFF; 0x0A]])).
Proof.
  split.
  - eexists. split; [reflexivity |]. split; [reflexivity |].
    repeat split;
      (eexists; split; [reflexivity |]); simpl;
      rewrite <- !app_assoc; reflexivity.
  - eexists. split; [reflexivity |]. split; [reflexivity |].
    repeat split; (eexists; split; [reflexivity |]); reflexivity.
Qed.

(** Before [begin] nothing reaches a transport: on a handle whose
    [_comm] is neither [I2CCOMM] nor [SERIALCOMM] every command returns
    having changed nothing, in range or not. *)
Theorem unbound_handle_drops_commands m v :
  _comm m = UNSET ->
  scanTime SCANTIME v m = Done tt m /\
  setNewI2Caddress I2CADDR v m = Done tt m /\
  setNewSerialBaudRate BAUDRATE v m = Done tt m /\
  LEDshowObject LEDUSAGE SHOWOBJ m = Done tt m /\
  LEDshowPath LEDUSAGE SHOWPATH m = Done tt m /\
  LEDoff LEDUSAGE LEDOFF m = Done tt m.
Proof.
  intros Hc.
  assert (Hw : forall buf n, _write buf n m = Done tt m)
    by (intros buf n; unfold _write; rewrite Hc; reflexivity).
  unfold scanTime, setNewI2Caddress, setNewSerialBaudRate,
    LEDshowObject, LEDshowPath, LEDoff.
  repeat split; try apply Hw.
  - destruct ((v >=? 1) && (v <=? MINDUR - 1)); [apply Hw |].
    destruct ((v >=? 0) && (v <=? 32767)); [apply Hw | reflexivity].
  - destruct ((v >=? 2) && (v <=? 127)); [apply Hw | reflexivity].
  - destruct ((v >=? 1200) && (v <=? 250000)); [apply Hw | reflexivity].
Qed.

End Commands.

Lemma scanTime_clamps_short_periods_witness :
  exists m',
    scanTime 0x53 5 (fresh SERIALCOMM 0) = Done tt m' /\
    sent m' = [SerialWrite [0x53; 15; 0x0A]].
Proof.
  destruct (scanTime_clamps_short_periods 0x53 (fresh SERIALCOMM 0) 5)
    as (m' & Hrun & Hsent & _).
  - apply initialised_fresh_serial.
  - unfold MINDUR. lia.
  - exists m'. split; [exact Hrun | exact Hsent].
Defined.

Lemma baud_rate_round_trip_witness :
  exists m' b0 b1 b2,
    setNewSerialBaudRate 0x42 115200 (fresh I2CCOMM 0) = Done tt m' /\
    sent m' = [WireBeginTransmission 0x45; WireWrite [0x42; b0; b1; b2; 0x0A];
               WireEndTransmission] /\
    le24 b0 b1 b2 = 115200.
Proof.
  destruct (baud_rate_round_trip 0x42 (fresh I2CCOMM 0) 115200)
    as (m' & b0 & b1 & b2 & Hrun & Hsent & _ & _ & _ & Hback).
  - apply initialised_fresh_wire.
  - lia.
  - exists m', b0, b1, b2. split; [exact Hrun |]. split; [exact Hsent | exact Hback].
Defined.

Lemma unbound_handle_drops_commands_witness :
  scanTime 0x53 100 (fresh UNSET 0) = Done tt (fresh UNSET 0).
Proof.
  apply (unbound_handle_drops_commands 0x53 0x41 0x42 0x30 1 2 3
           (fresh UNSET 0) 100).
  reflexivity.
Defined.

(** ** The scan session, byte by byte *)

Section ScanSession.

Variable REQUESTDATA : Z.

Lemma store_done_length i v m m1 :
  store i v m = Done tt m1 ->
  0 <= i /\ (Z.to_nat i < length (_buffer m))%nat /\
  m1 = log_access (Store i)
         (set_buffer (<[Z.to_nat i := u8 v]> (_buffer m)) m).
Proof.
  unfold store, in_bounds. intros Hrun.
  destruct (Z.leb_spec 0 i), (Z.ltb_spec i BUFFER_SIZE);
    simpl in Hrun; try discriminate Hrun.
  destruct (Nat.ltb_spec (Z.to_nat i) (length (_buffer m)));
    [| discriminate Hrun].
  injection Hrun as <-. repeat split; assumption.
Qed.

Lemma u8_idem z : u8 (u8 z) = u8 z.
Proof. unfold u8. apply Z.mod_mod. lia. Qed.

(** What the loop does to the driver: the bytes it takes are bytes,
    they land in the buffer from index [i] on, in the order received,
    no more of them than [numBytes] allows, and nothing else changes
    but the clock. *)
Lemma gather_effect script :
  forall n i s d m k m',
    0 <= i ->
    gather script n i s d m = Done k m' ->
    exists new,
      received m' = received m ++ new /\
      k = i + Z.of_nat (length new) /\
      _buffer m' = take (Z.to_nat i) (_buffer m) ++ new
                     ++ drop (Z.to_nat k) (_buffer m) /\
      Forall is_u8 new /\ k <= Z.max i n /\
      length (_buffer m') = length (_buffer m) /\
      sent m' = sent m /\ _comm m' = _comm m /\
      _numdata m' = _numdata m /\ _address m' = _address m.
Proof.
  induction script as [| p script IH]; intros n i s d m k m' Hi Hrun;
    destruct ((i <? n) && (d <? maxWait)) eqn:Hc;
    try (rewrite gather_stop in Hrun by exact Hc;
         injection Hrun as <- <-; exists [];
         rewrite app_nil_r; simpl; rewrite take_drop;
         repeat split; [lia | apply Forall_nil; trivial | lia]).
  - rewrite gather_starved in Hrun by exact Hc. discriminate Hrun.
  - destruct (turn_cases p m) as [Hidle | [Hinit Hav]].
    + rewrite gather_idle in Hrun by assumption.
      apply IH in Hrun; [exact Hrun | exact Hi].
    + rewrite gather_byte in Hrun by assumption.
      destruct (store i (u8 (next_byte p)) _) as [[] m1 | f] eqn:Hst;
        [| discriminate Hrun].
      apply store_done_length in Hst as (_ & Hlen & ->).
      apply IH in Hrun
          as (new & Hrec & Hk & Hbuf & Hbytes & Hmax & Hsize & Hrest);
        [| lia].
      simpl in Hrec, Hbuf, Hsize, Hrest, Hlen.
      rewrite length_insert in Hsize.
      apply andb_prop in Hc as [Hin _]. apply Z.ltb_lt in Hin.
      exists (u8 (next_byte p) :: new).
      split; [rewrite Hrec, <- app_assoc; reflexivity |].
      split; [rewrite Hk; simpl length; lia |].
      split; [| split; [| split; [lia | split; [exact Hsize | exact Hrest]]]].
      * rewrite Hbuf, u8_idem.
        replace (Z.to_nat (i + 1)) with (S (Z.to_nat i)) by lia.
        rewrite (take_S_r _ _ (u8 (next_byte p)))
          by (apply list_lookup_insert_eq; exact Hlen).
        rewrite take_insert_ge by lia.
        rewrite drop_insert_lt by lia.
        rewrite <- app_assoc. reflexivity.
      * apply Forall_cons. split; [apply u8_range | exact Hbytes].
Qed.

Lemma numBytes_positive obs : 0 < numBytes_of obs.
Proof.
  unfold numBytes_of, u8.
  assert ((1 + obs * 4) mod 256 <> 0)
    by (intros Hz; apply Z.mod_divide in Hz; [| lia];
        destruct Hz as [q Hq]; lia).
  pose proof (Z.mod_pos_bound (1 + obs * 4) 256 ltac:(lia)). lia.
Qed.

(** [read] taken apart: the budget is clamped and recorded, the request
    goes out, and the loop starts at index 0 with the clock just read. *)
Lemma read_unfold obs script m :
  exists m1,
    received m1 = received m /\ _buffer m1 = _buffer m /\
    _comm m1 = _comm m /\ _address m1 = _address m /\
    _numdata m1 = (if obs >? MAXOBJECTS then MAXOBJECTS else obs) /\
    sent m1 = sent m ++
                request_events REQUESTDATA m
                  (numBytes_of (if obs >? MAXOBJECTS then MAXOBJECTS else obs)) /\
    clock m1 = u32 (clock m + 0) /\
    read REQUESTDATA obs script m =
      match gather script
                   (numBytes_of (if obs >? MAXOBJECTS then MAXOBJECTS else obs))
                   0 (clock m1) 0 m1 with
      | Done k m' => Done (if k =? 0 then false else true) m'
      | Fault f => Fault f
      end.
Proof.
  set (c := if obs >? MAXOBJECTS then MAXOBJECTS else obs).
  unfold read, request_events, _requestData, _write, micros. run. fold c.
  destruct (_comm m) eqn:Hcomm; simpl; rewrite ?Hcomm.
  - exists (set_clock (u32 (clock m + 0))
              (log_event (WireRequestFrom (_address m) (numBytes_of c))
                 (set_numdata c m))).
    repeat split; exact Hcomm.
  - exists (set_clock (u32 (clock m + 0))
              (log_event (SerialWrite [REQUESTDATA; numBytes_of c; NEWLINE])
                 (set_numdata c m))).
    repeat split; exact Hcomm.
  - exists (set_clock (u32 (clock m + 0)) (set_numdata c m)).
    simpl. rewrite app_nil_r. repeat split; exact Hcomm.
Qed.

(** The effect of a [read] that returns, in one place. *)
Lemma read_effect obs script m r m' :
  read REQUESTDATA obs script m = Done r m' ->
  exists new,
    received m' = received m ++ new /\
    (r = true <-> new <> []) /\
    _buffer m' = new ++ drop (length new) (_buffer m) /\
    Forall is_u8 new /\
    Z.of_nat (length new)
      <= numBytes_of (if obs >? MAXOBJECTS then MAXOBJECTS else obs) /\
    length (_buffer m') = length (_buffer m) /\
    sent m' = sent m ++
                request_events REQUESTDATA m
                  (numBytes_of (if obs >? MAXOBJECTS then MAXOBJECTS else obs)) /\
    _numdata m' = (if obs >? MAXOBJECTS then MAXOBJECTS else obs) /\
    _comm m' = _comm m /\ _address m' = _address m.
Proof.
  intros Hrun.
  destruct (read_unfold obs script m)
    as (m1 & Hrec1 & Hbuf1 & Hcomm1 & Haddr1 & Hnum1 & Hsent1 & _ & Hread).
  rewrite Hread in Hrun.
  destruct (gather script _ 0 (clock m1) 0 m1) as [k m2 | f] eqn:Hg;
    [| discriminate Hrun].
  injection Hrun as <- <-.
  apply gather_effect in Hg
      as (new & Hrec & Hk & Hbuf & Hbytes & Hmax & Hsize & Hsent & Hcomm
          & Hnum & Haddr); [| lia].
  pose proof (numBytes_positive (if obs >? MAXOBJECTS then MAXOBJECTS else obs)).
  exists new.
  split; [rewrite Hrec, Hrec1; reflexivity |].
  split.
  { destruct new as [| b new]; simpl in Hk.
    - subst k. simpl. split; congruence.
    - destruct (Z.eqb_spec k 0); [lia |]. split; congruence. }
  split.
  { rewrite Hbuf, Hbuf1. replace (Z.to_nat k) with (length new) by lia.
    reflexivity. }
  split; [exact Hbytes |].
  split; [lia |].
  split; [rewrite Hsize, Hbuf1; reflexivity |].
  split; [rewrite Hsent, Hsent1; reflexivity |].
  split; [rewrite Hnum, Hnum1; reflexivity |].
  split; [rewrite Hcomm, Hcomm1; reflexivity | rewrite Haddr, Haddr1; reflexivity].
Qed.

Lemma read_keeps_buffer_ok obs script m r m' :
  buffer_ok m -> read REQUESTDATA obs script m = Done r m' -> buffer_ok m'.
Proof.
  intros [Hlen Hbytes] Hrun.
  apply read_effect in Hrun
      as (new & _ & _ & Hbuf & Hnew & _ & Hsize & _).
  split; [rewrite Hsize; exact Hlen |].
  rewrite Hbuf. apply Forall_app. split; [exact Hnew |].
  apply Forall_drop. exact Hbytes.
Qed.

(** A scan fills the buffer from the front: the bytes a [read] receives
    are, in order, the first bytes of the buffer afterwards; the bytes
    behind them are those of the scan before; at most [numBytes] are
    taken; and the buffer is again 33 bytes. *)
Theorem read_fills_buffer_front obs script m r m' :
  buffer_ok m -> read REQUESTDATA obs script m = Done r m' ->
  exists new,
    received m' = received m ++ new /\
    _buffer m' = new ++ drop (length new) (_buffer m) /\
    Z.of_nat (length new)
      <= numBytes_of (if obs >? MAXOBJECTS then MAXOBJECTS else obs) /\
    buffer_ok m'.
Proof.
  intros Hok Hrun.
  pose proof (read_keeps_buffer_ok obs script m r m' Hok Hrun) as Hok'.
  apply read_effect in Hrun as (new & Hrec & _ & Hbuf & _ & Hn & _).
  exists new.
  split; [exact Hrec |]. split; [exact Hbuf |]. split; [exact Hn | exact Hok'].
Qed.

(** The request a scan sends: for a budget that is not negative,
    [read(obs)] records [min(obs, MAXOBJECTS)] as [_numdata] and asks the
    bound transport, once, for [1 + 4 * min(obs, MAXOBJECTS)] bytes --
    [requestFrom] on the two-wire bus, the frame
    [{REQUESTDATA, n, 0x0A}] on the stream -- and sends nothing else. *)
Theorem read_requests_clamped_budget obs script m r m' :
  0 <= obs -> read REQUESTDATA obs script m = Done r m' ->
  sent m' = sent m ++
              request_events REQUESTDATA m (1 + 4 * Z.min obs MAXOBJECTS) /\
  _numdata m' = Z.min obs MAXOBJECTS /\
  1 + 4 * Z.min obs MAXOBJECTS <= BUFFER_SIZE.
Proof.
  intros Hobs Hrun.
  apply read_effect in Hrun as (_ & _ & _ & _ & _ & _ & _ & Hsent & Hnum & _).
  assert (Hc : (if obs >? MAXOBJECTS then MAXOBJECTS else obs)
               = Z.min obs MAXOBJECTS)
    by (destruct (Z.gtb_spec obs MAXOBJECTS); lia).
  rewrite Hc in Hsent, Hnum.
  assert (Hn : numBytes_of (Z.min obs MAXOBJECTS) = 1 + 4 * Z.min obs MAXOBJECTS).
  { unfold numBytes_of. rewrite u8_small; [lia |].
    unfold is_u8, MAXOBJECTS. lia. }
  rewrite Hn in Hsent.
  split; [exact Hsent |]. split; [exact Hnum |].
  unfold BUFFER_SIZE, MAXOBJECTS. lia.
Qed.

(** A scan and then the counts: once a [read] has received a header
    byte [h], [objectCount()] answers its high nibble and [pathCount()]
    its low nibble. *)
Theorem counts_after_read obs script m r m' h rest :
  buffer_ok m -> read REQUESTDATA obs script m = Done r m' ->
  received m' = received m ++ h :: rest ->
  r = true /\
  (exists m1, objectCount m' = Done (h / 16) m1) /\
  (exists m2, pathCount m' = Done (h mod 16) m2).
Proof.
  intros Hok Hrun Hrec.
  pose proof (read_keeps_buffer_ok obs script m r m' Hok Hrun) as Hok'.
  apply read_effect in Hrun as (new & Hrec' & Htrue & Hbuf & _).
  rewrite Hrec in Hrec'. apply app_inv_head in Hrec'. subst new.
  assert (Hh : header m' = Some h) by (unfold header; rewrite Hbuf; reflexivity).
  split; [apply Htrue; discriminate |].
  split; eexists.
  - apply (objectCount_run m' h Hok' Hh).
  - apply (pathCount_run m' h Hok' Hh).
Qed.

(** A failed scan leaves the last one in place: when no turn shows a
    byte, [read] answers false and the buffer and the record of received
    bytes are what they were. *)
Theorem read_silence_keeps_buffer obs script m r m' :
  Forall quiet script -> read REQUESTDATA obs script m = Done r m' ->
  r = false /\ _buffer m' = _buffer m /\ received m' = received m.
Proof.
  intros Hquiet Hrun.
  destruct (read_unfold obs script m)
    as (m1 & Hrec1 & Hbuf1 & _ & _ & _ & _ & _ & Hread).
  rewrite Hread in Hrun.
  destruct (gather script _ 0 (clock m1) 0 m1) as [k m2 | f] eqn:Hg;
    [| discriminate Hrun].
  injection Hrun as <- <-.
  pose proof Hg as Hg'.
  apply gather_silent in Hg as [-> Hrec]; [| exact Hquiet].
  apply gather_effect in Hg' as (new & Hnew & Hk & Hbuf & _); [| lia].
  assert (new = []) by (destruct new; [reflexivity | simpl in Hk; lia]).
  subst new. simpl in Hbuf. rewrite drop_0 in Hbuf.
  split; [reflexivity |].
  split; [rewrite Hbuf, Hbuf1; reflexivity | rewrite Hrec, Hrec1; reflexivity].
Qed.

Lemma gather_unbound script :
  forall n i s d m k m',
    _comm m = UNSET -> gather script n i s d m = Done k m' -> k = i.
Proof.
  induction script as [| p script IH]; intros n i s d m k m' Hcomm Hrun;
    destruct ((i <? n) && (d <? maxWait)) eqn:Hc;
    try (rewrite gather_stop in Hrun by exact Hc;
         injection Hrun as <- _; reflexivity).
  - rewrite gather_starved in Hrun by exact Hc. discriminate Hrun.
  - rewrite gather_idle in Hrun by (try exact Hc; left; exact Hcomm).
    apply IH in Hrun; [exact Hrun | exact Hcomm].
Qed.

(** A scan before [begin] reaches no transport: on a handle whose
    [_comm] is neither [I2CCOMM] nor [SERIALCOMM], [read] sends no
    request, takes no byte, keeps the buffer and answers false. *)
Theorem unbound_handle_reads_nothing obs script m r m' :
  _comm m = UNSET -> read REQUESTDATA obs script m = Done r m' ->
  r = false /\ sent m' = sent m /\ _buffer m' = _buffer m /\
  received m' = received m.
Proof.
  intros Hcomm Hrun.
  destruct (read_unfold obs script m)
    as (m1 & Hrec1 & Hbuf1 & Hcomm1 & _ & _ & Hsent1 & _ & Hread).
  rewrite Hread in Hrun.
  destruct (gather script _ 0 (clock m1) 0 m1) as [k m2 | f] eqn:Hg;
    [| discriminate Hrun].
  injection Hrun as <- <-.
  pose proof Hg as Hg'.
  apply gather_unbound in Hg; [| rewrite Hcomm1; exact Hcomm]. subst k.
  apply gather_effect in Hg'
      as (new & Hnew & Hk & Hbuf & _ & _ & _ & Hsent & _); [| lia].
  assert (new = []) by (destruct new; [reflexivity | simpl in Hk; lia]).
  subst new. simpl in Hbuf. rewrite drop_0 in Hbuf. rewrite app_nil_r in Hnew.
  unfold request_events in Hsent1. rewrite Hcomm, app_nil_r in Hsent1.
  split; [reflexivity |].
  split; [rewrite Hsent, Hsent1; reflexivity |].
  split; [rewrite Hbuf, Hbuf1; reflexivity | rewrite Hnew, Hrec1; reflexivity].
Qed.

Lemma gather_no_overrun script :
  forall n i s d m index,
    buffer_ok m -> 0 <= i -> n <= BUFFER_SIZE ->
    gather script n i s d m <> Fault (OutOfBounds index).
Proof.
  induction script as [| p script IH]; intros n i s d m index Hok Hi Hn;
    destruct ((i <? n) && (d <? maxWait)) eqn:Hc;
    try (rewrite gather_stop by exact Hc; discriminate).
  - rewrite gather_starved by exact Hc. discriminate.
  - apply andb_prop in Hc as [Hin Hdn]. pose proof Hin as Hin'.
    apply Z.ltb_lt in Hin'.
    assert (Hc : (i <? n) && (d <? maxWait) = true)
      by (rewrite Hin, Hdn; reflexivity).
    destruct (turn_cases p m) as [Hidle | [Hinit Hav]].
    + rewrite gather_idle by assumption.
      apply IH; [| exact Hi | exact Hn].
      eapply buffer_ok_ext; [| exact Hok]. reflexivity.
    + rewrite gather_byte by assumption.
      rewrite store_inside;
        [| eapply buffer_ok_ext; [| exact Hok]; reflexivity | lia].
      apply IH; [| lia | exact Hn].
      eapply buffer_ok_ext;
        [| apply (buffer_ok_update m (Z.to_nat i) (u8 (next_byte p)) Hok)].
      reflexivity.
Qed.

(** For every budget that is not negative, and for [read()], no byte is
    ever stored outside the buffer, whatever the transport delivers and
    however long it takes. *)
Theorem read_nonnegative_never_overruns obs script m index :
  buffer_ok m -> 0 <= obs ->
  read REQUESTDATA obs script m <> Fault (OutOfBounds index) /\
  read_all REQUESTDATA script m <> Fault (OutOfBounds index).
Proof.
  intros Hok Hobs.
  assert (Hgen : forall o, 0 <= o ->
                   read REQUESTDATA o script m <> Fault (OutOfBounds index)).
  { intros o Ho.
    destruct (read_unfold o script m)
      as (m1 & _ & Hbuf1 & _ & _ & _ & _ & _ & Hread).
    rewrite Hread.
    pose proof (gather_no_overrun script
                  (numBytes_of (if o >? MAXOBJECTS then MAXOBJECTS else o))
                  0 (clock m1) 0 m1 index) as Hsafe.
    destruct (gather script _ 0 (clock m1) 0 m1) as [k m2 | f];
      [discriminate |].
    intros Hf. injection Hf as ->. apply Hsafe; [| lia | | reflexivity].
    - eapply buffer_ok_ext; [exact Hbuf1 | exact Hok].
    - apply numBytes_fits. exact Ho. }
  split; [apply Hgen; exact Hobs |].
  unfold read_all. apply Hgen. unfold MAXOBJECTS. lia.
Qed.

Lemma offered_cons n p script :
  0 < n -> offered n (p :: script) = u8 (next_byte p) :: offered (n - 1) script.
Proof.
  intros Hn. unfold offered.
  replace (Z.to_nat n) with (S (Z.to_nat (n - 1))) by lia. reflexivity.
Qed.

Lemma gather_prompt script :
  forall n i s d m,
    initialised m -> buffer_ok m -> Forall prompt script ->
    0 <= i <= n -> n <= BUFFER_SIZE -> d < maxWait ->
    n - i <= Z.of_nat (length script) ->
    exists m', gather script n i s d m = Done n m' /\
               received m' = received m ++ offered (n - i) script.
Proof.
  induction script as [| p script IH];
    intros n i s d m Hinit Hok Hprompt Hi Hn Hd Hlen.
  - simpl in Hlen. assert (i = n) by lia. subst i.
    rewrite gather_stop by (rewrite Z.ltb_irrefl; reflexivity).
    exists m. split; [reflexivity |].
    unfold offered. rewrite take_nil. simpl. rewrite app_nil_r. reflexivity.
  - destruct (Z.eq_dec i n) as [-> | Hne].
    + rewrite gather_stop by (rewrite Z.ltb_irrefl; reflexivity).
      exists m. split; [reflexivity |].
      unfold offered. rewrite Z.sub_diag. simpl. rewrite app_nil_r. reflexivity.
    + apply Forall_cons in Hprompt as [[Hav Hturn] Hprompt].
      assert (Hc : (i <? n) && (d <? maxWait) = true).
      { apply andb_true_intro. split; apply Z.ltb_lt; lia. }
      rewrite gather_byte by assumption.
      rewrite store_inside;
        [| eapply buffer_ok_ext; [| exact Hok]; reflexivity | lia].
      cbv beta iota. simpl clock.
      rewrite u32_since by (unfold maxWait in *; lia).
      match goal with
      | |- context [gather script n (i + 1) ?s1 _ ?m1] =>
          destruct (IH n (i + 1) s1 (elapsed_turn p) m1) as (m' & Hrun & Hrec)
      end.
      * destruct Hinit as [Hc' | Hc']; [left | right]; exact Hc'.
      * eapply buffer_ok_ext;
          [| apply (buffer_ok_update m (Z.to_nat i) (u8 (next_byte p)) Hok)].
        reflexivity.
      * exact Hprompt.
      * lia.
      * exact Hn.
      * lia.
      * simpl length in Hlen. lia.
      * exists m'. split; [exact Hrun |].
        rewrite Hrec. simpl received.
        rewrite (offered_cons (n - i) p script) by lia.
        rewrite <- app_assoc.
        replace (n - (i + 1)) with (n - i - 1) by lia. reflexivity.
Qed.

(** A complete scan: when a byte is there at every turn and each turn
    ends inside the inter-byte deadline, [read] takes exactly the bytes
    requested, the first [numBytes] the transport offers, and answers
    true -- however long the whole transfer takes, since the deadline
    runs anew from each byte. *)
Theorem read_complete_scan obs script m :
  initialised m -> buffer_ok m -> 0 <= obs -> Forall prompt script ->
  1 + 4 * Z.min obs MAXOBJECTS <= Z.of_nat (length script) ->
  exists m',
    read REQUESTDATA obs script m = Done true m' /\
    received m' = received m ++ offered (1 + 4 * Z.min obs MAXOBJECTS) script /\
    take (Z.to_nat (1 + 4 * Z.min obs MAXOBJECTS)) (_buffer m')
      = offered (1 + 4 * Z.min obs MAXOBJECTS) script.
Proof.
  intros Hinit Hok Hobs Hprompt Hlen.
  assert (Hc : (if obs >? MAXOBJECTS then MAXOBJECTS else obs)
               = Z.min obs MAXOBJECTS)
    by (destruct (Z.gtb_spec obs MAXOBJECTS); lia).
  assert (Hn : numBytes_of (Z.min obs MAXOBJECTS) = 1 + 4 * Z.min obs MAXOBJECTS).
  { unfold numBytes_of. rewrite u8_small; [lia |].
    unfold is_u8, MAXOBJECTS. lia. }
  destruct (read_unfold obs script m)
    as (m1 & Hrec1 & Hbuf1 & Hcomm1 & _ & _ & _ & _ & Hread).
  rewrite Hc, Hn in Hread.
  destruct (gather_prompt script (1 + 4 * Z.min obs MAXOBJECTS) 0 (clock m1) 0 m1)
    as (m' & Hrun & Hrec).
  - unfold initialised. rewrite Hcomm1. exact Hinit.
  - eapply buffer_ok_ext; [exact Hbuf1 | exact Hok].
  - exact Hprompt.
  - unfold MAXOBJECTS. lia.
  - unfold BUFFER_SIZE, MAXOBJECTS. lia.
  - unfold maxWait. lia.
  - lia.
  - rewrite Z.sub_0_r in Hrec.
    pose proof Hrun as Hrun'.
    apply gather_effect in Hrun'
        as (new & Hnew & Hk & Hbuf & _); [| lia].
    rewrite Hrec in Hnew. apply app_inv_head in Hnew. subst new.
    rewrite Hrun in Hread.
    destruct (Z.eqb_spec (1 + 4 * Z.min obs MAXOBJECTS) 0) as [Hz | _];
      [unfold MAXOBJECTS in Hz; lia |].
    exists m'. split; [exact Hread |].
    split; [rewrite Hrec, Hrec1; reflexivity |].
    rewrite Hbuf. simpl.
    rewrite take_app_length'; [reflexivity | lia].
Qed.


End ScanSession.

Lemma buffer_ok_fresh_zero c : buffer_ok (fresh c 0).
Proof. apply buffer_ok_fresh. unfold is_u8. lia. Qed.

Lemma quiet_silence : Forall quiet silence.
Proof.
  unfold silence. apply Forall_cons. split; [reflexivity |].
  apply Forall_nil. trivial.
Qed.

Lemma prompt_slow_flood n : Forall prompt (slow_flood n).
Proof.
  unfold slow_flood. apply Forall_replicate.
  split; [discriminate | simpl; unfold maxWait; lia].
Qed.

Lemma read_fills_buffer_front_witness :
  exists m' new,
    read 0x15 8 partial_then_silence (fresh SERIALCOMM 0) = Done true m' /\
    received m' = received (fresh SERIALCOMM 0) ++ new /\
    _buffer m' = new ++ drop (length new) (_buffer (fresh SERIALCOMM 0)).
Proof.
  eassert (Hrun : read 0x15 8 partial_then_silence (fresh SERIALCOMM 0)
                  = Done true _) by (lazy; reflexivity).
  destruct (read_fills_buffer_front 0x15 8 partial_then_silence
              (fresh SERIALCOMM 0) true _ (buffer_ok_fresh_zero SERIALCOMM) Hrun)
    as (new & Hrec & Hbuf & _).
  eexists _, new. split; [exact Hrun |]. split; [exact Hrec | exact Hbuf].
Defined.

Lemma read_requests_clamped_budget_witness :
  exists m',
    read 0x15 20 partial_then_silence (fresh I2CCOMM 0) = Done true m' /\
    sent m' = [WireRequestFrom 0x45 33] /\ _numdata m' = 8.
Proof.
  eassert (Hrun : read 0x15 20 partial_then_silence (fresh I2CCOMM 0)
                  = Done true _) by (lazy; reflexivity).
  destruct (read_requests_clamped_budget 0x15 20 partial_then_silence
              (fresh I2CCOMM 0) true _ ltac:(lia) Hrun) as (Hsent & Hnum & _).
  eexists. split; [exact Hrun |]. split; [exact Hsent | exact Hnum].
Defined.

Lemma counts_after_read_witness :
  exists m' m1 m2,
    read 0x15 8 partial_then_silence (fresh SERIALCOMM 0) = Done true m' /\
    objectCount m' = Done 1 m1 /\ pathCount m' = Done 0 m2.
Proof.
  eassert (Hrun : read 0x15 8 partial_then_silence (fresh SERIALCOMM 0)
                  = Done true _) by (lazy; reflexivity).
  destruct (counts_after_read 0x15 8 partial_then_silence
              (fresh SERIALCOMM 0) true _ 0x10 []
              (buffer_ok_fresh_zero SERIALCOMM) Hrun eq_refl)
    as (_ & (m1 & Hobj) & (m2 & Hpath)).
  eexists _, m1, m2. split; [exact Hrun |]. split; [exact Hobj | exact Hpath].
Defined.

Lemma read_silence_keeps_buffer_witness :
  exists m',
    read 0x15 8 silence two_objects_one_path = Done false m' /\
    _buffer m' = _buffer two_objects_one_path.
Proof.
  eassert (Hrun : read 0x15 8 silence two_objects_one_path = Done false _)
    by (lazy; reflexivity).
  destruct (read_silence_keeps_buffer 0x15 8 silence two_objects_one_path
              false _ quiet_silence Hrun) as (_ & Hbuf & _).
  eexists. split; [exact Hrun | exact Hbuf].
Defined.

Lemma unbound_handle_reads_nothing_witness :
  exists m',
    read 0x15 8 partial_then_silence (fresh UNSET 0) = Done false m' /\
    sent m' = [] /\ received m' = [].
Proof.
  eassert (Hrun : read 0x15 8 partial_then_silence (fresh UNSET 0)
                  = Done false _) by (lazy; reflexivity).
  destruct (unbound_handle_reads_nothing 0x15 8 partial_then_silence
              (fresh UNSET 0) false _ eq_refl Hrun) as (_ & Hsent & _ & Hrec).
  eexists. split; [exact Hrun |]. split; [exact Hsent | exact Hrec].
Defined.

Lemma read_nonnegative_never_overruns_witness :
  read 0x15 20 (flood 40) (fresh SERIALCOMM 0) <> Fault (OutOfBounds 33).
Proof.
  exact (proj1 (read_nonnegative_never_overruns 0x15 20 (flood 40)
                  (fresh SERIALCOMM 0) 33 (buffer_ok_fresh_zero SERIALCOMM)
                  ltac:(lia))).
Defined.

Lemma read_complete_scan_witness :
  exists m',
    read 0x15 1 (slow_flood 5) (fresh I2CCOMM 0) = Done true m' /\
    received m' = [0xAA; 0xAA; 0xAA; 0xAA; 0xAA] /\
    take 5 (_buffer m') = [0xAA; 0xAA; 0xAA; 0xAA; 0xAA].
Proof.
  destruct (read_complete_scan 0x15 1 (slow_flood 5) (fresh I2CCOMM 0))
    as (m' & Hrun & Hrec & Hbuf).
  - apply initialised_fresh_wire.
  - apply buffer_ok_fresh_zero.
  - lia.
  - apply prompt_slow_flood.
  - vm_compute. discriminate.
  - exists m'. split; [exact Hrun |]. split; [exact Hrec | exact Hbuf].
Defined.


(** ** The answer of a scan, against the behaviour of the transport *)

Section ScanAnswer.

Variable REQUESTDATA : Z.





(** A byte one microsecond inside the deadline is taken; a byte that
    comes when 20 ms have passed is not. *)
Example read_just_in_time :
  first_byte_in_time just_in_time 0 = Some 0x42 /\
  exists m', read REQUESTDATA 8 just_in_time (fresh SERIALCOMM 0)
             = Done true m' /\
             received m' = [0x42].
Proof. split; [reflexivity |]. eexists. split; [lazy; reflexivity |]. reflexivity. Qed.

Example read_just_too_late :
  first_byte_in_time just_too_late 0 = None /\
  exists m', read REQUESTDATA 8 just_too_late (fresh SERIALCOMM 0)
             = Done false m' /\
             received m' = [].
Proof. split; [reflexivity |]. eexists. split; [lazy; reflexivity |]. reflexivity. Qed.

End ScanAnswer.


